(** * Cisco 9300 switch health monitor: model of [cisco_health_monitor.py]

  The development embeds the class [CiscoHealthMonitor] and the
  [try]/[finally] block of [main] as functions in a small state-and-exception
  monad, and proves the properties of the health-check sweep: failure
  isolation per command, shape of the collected results, omission of
  disabled checks, behaviour without a session, persistence failures and
  the release of the session.

  What lies outside the script (the netmiko session, the clock, the file
  system) is a parameter of the model: an abstract environment with one
  transition function per call the script makes.  Each such call is
  recorded in a trace, so that "this command was sent" and "the session
  was torn down" are statements about the trace.  Calls to [logger] and
  [print] are left out: they neither raise nor change the monitor. *)

From Stdlib Require Import String List Bool Arith Lia.
Import ListNotations.
Local Open Scope string_scope.
Local Open Scope list_scope.

Set Implicit Arguments.

(** ** Python values used by the script *)

Module Py.

(** Exception classes the script distinguishes.  [KeyboardInterrupt] and
    [SystemExit] derive from [BaseException] only ([SystemExit] stands for
    every such class other than [KeyboardInterrupt]); every other class
    derives from [Exception], which is what [except Exception] catches. *)
Inductive exn_class : Type :=
| KeyboardInterrupt
| SystemExit
| NetmikoTimeoutException
| NetmikoAuthenticationException
| KeyError
| OSError
| OtherException.

Record exn : Type := Exc { exn_cls : exn_class; exn_str : string }.

Definition is_Exception (e : exn) : bool :=
  match exn_cls e with
  | KeyboardInterrupt | SystemExit => false
  | _ => true
  end.

Definition is_KeyboardInterrupt (e : exn) : bool :=
  match exn_cls e with
  | KeyboardInterrupt => true
  | _ => false
  end.

Definition is_class (c : exn_class) (e : exn) : bool :=
  match c, exn_cls e with
  | KeyboardInterrupt, KeyboardInterrupt
  | SystemExit, SystemExit
  | NetmikoTimeoutException, NetmikoTimeoutException
  | NetmikoAuthenticationException, NetmikoAuthenticationException
  | KeyError, KeyError
  | OSError, OSError
  | OtherException, OtherException => true
  | _, _ => false
  end.

(** [d[k]] on a mapping without the key [k]; [str] of a [KeyError] is the
    [repr] of the key. *)
Definition key_error (k : string) : exn :=
  Exc KeyError ("'" ++ k ++ "'")%string.

(** The result of a call: a value, or a raised exception. *)
Inductive outcome (A : Type) : Type :=
| Ret (a : A)
| Raise (e : exn).
Arguments Raise {A} e.

(** A [dict] with string keys, in insertion order. *)
Definition dict (V : Type) : Type := list (string * V).

Fixpoint dict_get {V} (k : string) (d : dict V) : option V :=
  match d with
  | [] => None
  | (k', v) :: d' => if String.eqb k k' then Some v else dict_get k d'
  end.

(** [d[k] = v]: an existing key keeps its place, a new one goes last. *)
Fixpoint dict_set {V} (k : string) (v : V) (d : dict V) : dict V :=
  match d with
  | [] => [(k, v)]
  | (k', v') :: d' =>
      if String.eqb k k' then (k', v) :: d' else (k', v') :: dict_set k v d'
  end.

Definition dict_keys {V} (d : dict V) : list string := map fst d.

(** Truthiness of an optional string ([None] and [''] are false). *)
Definition truthy_str (s : option string) : bool :=
  match s with
  | Some (String _ _) => true
  | _ => false
  end.

(** [d.get(k, default)] for a key whose presence is modelled by [option]. *)
Definition get_default {A} (o : option A) (d : A) : A :=
  match o with
  | Some a => a
  | None => d
  end.

End Py.

Import Py.

(** ** The configuration document

  [yaml.safe_load] returns nested mappings.  A key that the script reads
  with [d[k]] or [d.get(k)] is an [option] field: [None] is the key being
  absent.  Values that are present have the type the configuration
  document declares for them: a key that is present with YAML null where
  the document declares a mapping or a list, and a document that is not a
  mapping, are outside this model. *)

(** Free-form YAML values the script only copies ([switch_info],
    [timeout], [global_delay_factor]). *)
Inductive yaml : Type :=
| YScalar (lexeme : string)
| YMap (entries : yaml_entries)
with yaml_entries : Type :=
| YNil
| YCons (key : string) (value : yaml) (rest : yaml_entries).

Record CommandSpec : Type := {
  command : option string;
  description : option string;
  parse : option bool
}.

(** A mapping under [health_checks]; an empty mapping has both fields
    [None]. *)
Record HealthCheckDefinition : Type := {
  enabled : option bool;
  commands : option (list CommandSpec)
}.

Record ConnectionConfig : Type := {
  device_type : option string;
  timeout : option yaml;
  global_delay_factor : option yaml
}.

Record OutputConfig : Type := {
  file_path : option string
}.

(** A value of [health_checks] is a mapping or YAML null ([None]). *)
Record ConfigModel : Type := {
  connection_cfg : option ConnectionConfig;
  switch_info : option yaml;
  health_checks : option (dict (option HealthCheckDefinition));
  output : option OutputConfig
}.

(** ** Result documents *)

(** What [send_command] returns: raw text, or the rows TextFSM parsed. *)
Inductive payload : Type :=
| Text (s : string)
| Rows (rows : list (dict string)).

(** The dict appended per command: the keys [output] and [error] are each
    present or absent. *)
Record CommandResult : Type := {
  cr_command : string;
  cr_description : string;
  cr_output : option payload;
  cr_error : option string;
  cr_status : string
}.

Record CheckResult : Type := {
  check_name : string;
  timestamp : string;
  cr_commands : list CommandResult
}.

Record RunResult : Type := {
  device_info : yaml;
  execution_time : string;
  checks : dict CheckResult
}.

Record Analysis : Type := {
  alerts : list string
}.

(** The keyword arguments of [ConnectHandler]. *)
Record DeviceParams : Type := {
  dp_device_type : string;
  dp_host : string;
  dp_username : string;
  dp_password : string;
  dp_timeout : yaml;
  dp_global_delay_factor : yaml;
  dp_secret : option string
}.

(** ** The environment

  [Env] is the state of everything outside the script; [Handle] is the
  object [ConnectHandler] returns.  A netmiko connection defines neither
  [__bool__] nor [__len__], so a handle is always truthy.  Blocking calls
  return an [outcome]: a [KeyboardInterrupt] is delivered as the outcome of
  the call it interrupts. *)
Class World : Type := {
  Env : Type;
  Handle : Type;
  ConnectHandler : DeviceParams -> Env -> Env * outcome Handle;
  conn_enable : Handle -> Env -> Env * outcome unit;
  conn_send_command : Handle -> string -> bool -> Env -> Env * outcome payload;
  conn_disconnect : Handle -> Env -> Env * outcome unit;
  (* datetime.now(), as isoformat() and as strftime('%Y%m%d_%H%M%S') *)
  datetime_now : Env -> Env * (string * string);
  path_mkdir : string -> Env -> Env * outcome unit;
  (* str(Path(output_dir) / filename) *)
  path_join : string -> string -> string;
  (* open(filepath, 'w') followed by json.dump *)
  write_json : string -> RunResult -> Env -> Env * outcome unit
}.

Section Monitor.

Context {W : World}.

(** Calls observed during a run, oldest first.  [EvDisconnectCall] marks
    an entry into [CiscoHealthMonitor.disconnect]; the other events are
    calls into the environment, with their outcome. *)
Inductive event : Type :=
| EvConnect (p : DeviceParams) (r : outcome Handle)
| EvEnable (h : Handle) (r : outcome unit)
| EvSend (h : Handle) (cmd : string) (use_textfsm : bool) (r : outcome payload)
| EvMkdir (dir : string) (r : outcome unit)
| EvWrite (path : string) (doc : RunResult) (r : outcome unit)
| EvDisconnectCall
| EvTeardown (h : Handle) (r : outcome unit).

(** The instance attributes of [CiscoHealthMonitor]; [results] is [None]
    for the initial [{}]. *)
Record monitor : Type := {
  config : ConfigModel;
  results : option RunResult;
  connection : option Handle
}.

Record state : Type := {
  self : monitor;
  env : Env;
  trace : list event
}.

(** ** The monad *)

Definition M (A : Type) : Type := state -> state * outcome A.

Definition ret {A} (a : A) : M A := fun s => (s, Ret a).

Definition raise {A} (e : exn) : M A := fun s => (s, Raise e).

Definition bind {A B} (m : M A) (k : A -> M B) : M B :=
  fun s =>
    match m s with
    | (s', Ret a) => k a s'
    | (s', Raise e) => (s', Raise e)
    end.

Local Notation "x <- c ;; k" := (bind c (fun x => k))
  (at level 100, c at next level, right associativity).
Local Notation "c ;;; k" := (bind c (fun _ => k))
  (at level 100, right associativity).

(** [try: body / except ...]: [handler e] is [None] when no clause
    matches [e], which then propagates. *)
Definition try_except {A} (body : M A) (handler : exn -> option (M A)) : M A :=
  fun s =>
    match body s with
    | (s', Ret a) => (s', Ret a)
    | (s', Raise e) =>
        match handler e with
        | Some h => h s'
        | None => (s', Raise e)
        end
    end.

(** [try: body / finally: fin].  [fin] runs whatever [body] did; an
    exception of [fin] replaces the outcome of [body]. *)
Definition try_finally {A} (body : M A) (fin : M unit) : M A :=
  fun s =>
    match body s with
    | (s', r) =>
        match fin s' with
        | (s'', Ret _) => (s'', r)
        | (s'', Raise e) => (s'', Raise e)
        end
    end.

(** A call into the environment, recorded in the trace. *)
Definition call {A} (f : Env -> Env * outcome A) (ev : outcome A -> event)
  : M A :=
  fun s =>
    match f (env s) with
    | (e', r) =>
        ({| self := self s; env := e'; trace := trace s ++ [ev r] |}, r)
    end.

Definition mark (ev : event) : M unit :=
  fun s =>
    ({| self := self s; env := env s; trace := trace s ++ [ev] |}, Ret tt).

Definition now : M (string * string) :=
  fun s =>
    match datetime_now (env s) with
    | (e', t) => ({| self := self s; env := e'; trace := trace s |}, Ret t)
    end.

Definition get_self : M monitor := fun s => (s, Ret (self s)).

Definition set_connection (c : option Handle) : M unit :=
  fun s =>
    ({| self := {| config := config (self s);
                   results := results (self s);
                   connection := c |};
        env := env s; trace := trace s |}, Ret tt).

Definition set_results (r : option RunResult) : M unit :=
  fun s =>
    ({| self := {| config := config (self s);
                   results := r;
                   connection := connection (self s) |};
        env := env s; trace := trace s |}, Ret tt).

(** [d[k]]: the value, or [KeyError]. *)
Definition subscript {A} (k : string) (o : option A) : M A :=
  match o with
  | Some a => ret a
  | None => raise (key_error k)
  end.

(** ** [CiscoHealthMonitor] *)

(** The three [except] clauses of [connect_to_device] all return [False];
    they differ in the message logged. *)
Definition connect_handler (e : exn) : option (M bool) :=
  if is_class NetmikoTimeoutException e then Some (ret false)
  else if is_class NetmikoAuthenticationException e then Some (ret false)
  else if is_Exception e then Some (ret false)
  else None.

Definition connect_to_device (host username password : string)
    (secret : option string) : M bool :=
  m <- get_self ;;
  c1 <- subscript "connection" (connection_cfg (config m)) ;;
  dt <- subscript "device_type" (device_type c1) ;;
  c2 <- subscript "connection" (connection_cfg (config m)) ;;
  tmo <- subscript "timeout" (timeout c2) ;;
  c3 <- subscript "connection" (connection_cfg (config m)) ;;
  gdf <- subscript "global_delay_factor" (global_delay_factor c3) ;;
  let device_params :=
    {| dp_device_type := dt; dp_host := host; dp_username := username;
       dp_password := password; dp_timeout := tmo;
       dp_global_delay_factor := gdf;
       dp_secret := if truthy_str secret then secret else None |} in
  try_except
    (h <- call (ConnectHandler device_params) (EvConnect device_params) ;;
     set_connection (Some h) ;;;
     (if truthy_str secret then call (conn_enable h) (EvEnable h) else ret tt) ;;;
     ret true)
    connect_handler.

(** [not health_check or not health_check.get('enabled')]. *)
Definition hc_truthy (hc : option HealthCheckDefinition) : bool :=
  match hc with
  | None => false
  | Some d =>
      match enabled d, commands d with
      | None, None => false
      | _, _ => true
      end
  end.

Definition hc_enabled (hc : option HealthCheckDefinition) : bool :=
  match hc with
  | Some d => match enabled d with Some true => true | _ => false end
  | None => false
  end.

Definition skipped (hc : option HealthCheckDefinition) : bool :=
  negb (hc_truthy hc) || negb (hc_enabled hc).

(** [health_checks.get(check_name)]: an absent key and a null value both
    give [None]. *)
Definition lookup_check (check_name : string)
    (hcs : dict (option HealthCheckDefinition)) : option HealthCheckDefinition :=
  match dict_get check_name hcs with
  | Some v => v
  | None => None
  end.

(** [health_check.get('commands', [])], for a check that passed the test
    above (the [None] case is excluded by it). *)
Definition declared_commands (hc : option HealthCheckDefinition) : list CommandSpec :=
  match hc with
  | Some d => get_default (commands d) []
  | None => []
  end.

Definition success_result (command descr : string) (out : payload)
  : CommandResult :=
  {| cr_command := command; cr_description := descr;
     cr_output := Some out; cr_error := None; cr_status := "success" |}.

Definition failed_result (command descr : string) (e : exn) : CommandResult :=
  {| cr_command := command; cr_description := descr;
     cr_output := None; cr_error := Some (exn_str e); cr_status := "failed" |}.

(** The [for cmd_config in ...] loop; [acc] is [check_results['commands']]. *)
Fixpoint run_commands (conn : Handle) (cmds : list CommandSpec)
    (acc : list CommandResult) : M (list CommandResult) :=
  match cmds with
  | [] => ret acc
  | cmd_config :: rest =>
      cmd <- subscript "command" (command cmd_config) ;;
      let descr := get_default (description cmd_config) "" in
      let use_textfsm := get_default (parse cmd_config) false in
      acc' <- try_except
                (out <- call (conn_send_command conn cmd use_textfsm)
                             (EvSend conn cmd use_textfsm) ;;
                 ret (acc ++ [success_result cmd descr out]))
                (fun e =>
                   if is_Exception e
                   then Some (ret (acc ++ [failed_result cmd descr e]))
                   else None) ;;
      run_commands conn rest acc'
  end.

(** [execute_health_check]; [None] is the empty dict [{}]. *)
Definition execute_health_check (name : string) : M (option CheckResult) :=
  m <- get_self ;;
  match connection m with
  | None => ret None
  | Some conn =>
      hcs <- subscript "health_checks" (health_checks (config m)) ;;
      let health_check := lookup_check name hcs in
      if skipped health_check then ret None
      else
        t <- now ;;
        rs <- run_commands conn (declared_commands health_check) [] ;;
        ret (Some {| check_name := name; timestamp := fst t;
                     cr_commands := rs |})
  end.

(** The loop of [execute_all_health_checks]; [acc] is
    [all_results['checks']].  A returned dict is truthy exactly when it is
    not [{}]. *)
Fixpoint run_checks (names : list string) (acc : dict CheckResult)
  : M (dict CheckResult) :=
  match names with
  | [] => ret acc
  | name :: rest =>
      result <- execute_health_check name ;;
      match result with
      | Some r => run_checks rest (dict_set name r acc)
      | None => run_checks rest acc
      end
  end.

Definition execute_all_health_checks : M RunResult :=
  m <- get_self ;;
  info <- subscript "switch_info" (switch_info (config m)) ;;
  t <- now ;;
  hcs <- subscript "health_checks" (health_checks (config m)) ;;
  cs <- run_checks (dict_keys hcs) [] ;;
  let all_results :=
    {| device_info := info; execution_time := fst t; checks := cs |} in
  set_results (Some all_results) ;;;
  ret all_results.

Definition save_handler (e : exn) : option (M (option string)) :=
  if is_Exception e then Some (ret None) else None.

(** [save_results]; the returned [None] is Python's [None]. *)
Definition save_results (output_dir : option string) : M (option string) :=
  m <- get_self ;;
  match results m with
  | None => ret None
  | Some doc =>
      let output_config := get_default (output (config m)) {| file_path := None |} in
      let dir :=
        match output_dir with
        | None => get_default (file_path output_config) "./output"
        | Some d => d
        end in
      call (path_mkdir dir) (EvMkdir dir) ;;;
      t <- now ;;
      let filename := ("cisco9300_health_" ++ snd t ++ ".json")%string in
      let filepath := path_join dir filename in
      try_except
        (call (write_json filepath doc) (EvWrite filepath doc) ;;;
         ret (Some filepath))
        save_handler
  end.

Definition disconnect : M unit :=
  mark EvDisconnectCall ;;;
  m <- get_self ;;
  match connection m with
  | Some conn => call (conn_disconnect conn) (EvTeardown conn)
  | None => ret tt
  end.

Definition analyze_thresholds : M Analysis :=
  ret {| alerts := [] |}.

(** ** [main]: the [try] / [except] / [finally] block *)

Definition main_handler (e : exn) : option (M unit) :=
  if is_KeyboardInterrupt e then Some (ret tt)
  else if is_Exception e then Some (ret tt)
  else None.

Definition main_body (host username password secret : string) : M unit :=
  ok <- connect_to_device host username password
          (if truthy_str (Some secret) then Some secret else None) ;;
  if negb ok then ret tt
  else
    execute_all_health_checks ;;;
    save_results None ;;;
    analyze_thresholds ;;;
    ret tt.

Definition main_try (host username password secret : string) : M unit :=
  try_finally
    (try_except (main_body host username password secret) main_handler)
    disconnect.

(** A fresh monitor, as [__init__] leaves it once the configuration is
    loaded. *)
Definition init (cfg : ConfigModel) : monitor :=
  {| config := cfg; results := None; connection := None |}.

End Monitor.

(** ** Vocabulary of the statements *)

Section Vocabulary.

Context {W : World}.

Definition has_command (c : CommandSpec) : bool :=
  match command c with
  | Some _ => true
  | None => false
  end.

Definition command_text (c : CommandSpec) : string :=
  get_default (command c) "".

Definition description_text (c : CommandSpec) : string :=
  get_default (description c) "".

Definition parse_flag (c : CommandSpec) : bool :=
  get_default (parse c) false.

(** Every declared command of every check has its [command] key. *)
Definition commands_well_formed (hcs : dict (option HealthCheckDefinition)) : bool :=
  forallb (fun kv => forallb has_command (declared_commands (snd kv))) hcs.


(** The result the loop appends for a command, given what the send did. *)
Definition result_of (c : CommandSpec) (o : outcome payload) : CommandResult :=
  match o with
  | Ret out => success_result (command_text c) (description_text c) out
  | Raise e => failed_result (command_text c) (description_text c) e
  end.

Definition send_event (conn : Handle) (c : CommandSpec) (o : outcome payload)
  : event :=
  EvSend conn (command_text c) (parse_flag c) o.

Definition results_of (cmds : list CommandSpec) (outs : list (outcome payload))
  : list CommandResult :=
  map (fun co => result_of (fst co) (snd co)) (combine cmds outs).

Definition send_events (conn : Handle) (cmds : list CommandSpec)
    (outs : list (outcome payload)) : list event :=
  map (fun co => send_event conn (fst co) (snd co)) (combine cmds outs).

(** A send either returns or fails with an [Exception]: nothing interrupts
    the run while it waits for the device. *)
Definition uninterrupted (o : outcome payload) : bool :=
  match o with
  | Ret _ => true
  | Raise e => is_Exception e
  end.

Definition sends_uninterrupted : Prop :=
  forall (conn : Handle) (cmd : string) (use_textfsm : bool) (e : Env),
    uninterrupted (snd (conn_send_command conn cmd use_textfsm e)) = true.

(** The command texts sent on the session, in order. *)
Fixpoint sent (tr : list event) : list string :=
  match tr with
  | [] => []
  | EvSend _ cmd _ _ :: tr' => cmd :: sent tr'
  | _ :: tr' => sent tr'
  end.


(** Exactly one of [output] and [error], as [status] says. *)
Definition consistent (r : CommandResult) : bool :=
  match cr_output r, cr_error r with
  | Some _, None => String.eqb (cr_status r) "success"
  | None, Some _ => String.eqb (cr_status r) "failed"
  | _, _ => false
  end.

Definition all_consistent (d : dict CheckResult) : Prop :=
  Forall (fun kv => forallb consistent (cr_commands (snd kv)) = true) d.

(** Sessions opened and sessions torn down, in order. *)
Fixpoint created (tr : list event) : list Handle :=
  match tr with
  | [] => []
  | EvConnect _ (Ret h) :: tr' => h :: created tr'
  | _ :: tr' => created tr'
  end.

Fixpoint torn_down (tr : list event) : list Handle :=
  match tr with
  | [] => []
  | EvTeardown h _ :: tr' => h :: torn_down tr'
  | _ :: tr' => torn_down tr'
  end.

Fixpoint disconnect_calls (tr : list event) : nat :=
  match tr with
  | [] => 0
  | EvDisconnectCall :: tr' => S (disconnect_calls tr')
  | _ :: tr' => disconnect_calls tr'
  end.


(** Events that neither open nor close a session. *)
Definition keeps_session (ev : event) : bool :=
  match ev with
  | EvDisconnectCall | EvTeardown _ _ | EvConnect _ (Ret _) => false
  | _ => true
  end.

(** A computation that neither opens nor closes a session: it keeps the
    configuration and the session reference of the monitor, and adds only
    session-neutral events to the trace, whatever its outcome. *)
Definition extends_quietly (s s' : state) : Prop :=
  config (self s') = config (self s) /\
  connection (self s') = connection (self s) /\
  exists evs,
    trace s' = trace s ++ evs /\ forallb keeps_session evs = true.

Definition quiet {A} (m : M A) : Prop :=
  forall s, extends_quietly s (fst (m s)).

(** A second [disconnect] leaves the session alone: it tears nothing down
    beyond what the first one did. *)
Definition second_disconnect_is_noop (s : state) : Prop :=
  let s1 := fst (disconnect s) in
  let s2 := fst (disconnect s1) in
  torn_down (trace s2) = torn_down (trace s1).

End Vocabulary.

(** ** A scripted device

  A small world to run the model on: the switch rejects ["show bad"], the
  host ["unreachable"] times out, and nothing can be written below
  ["/readonly"]. *)

Module Demo.

Definition send (h : nat) (cmd : string) (use_textfsm : bool) (e : nat)
  : nat * outcome payload :=
  if String.eqb cmd "show bad"
  then (S e, Raise (Exc OtherException "Invalid input detected"))
  else (S e, Ret (Text cmd)).

Definition connect (p : DeviceParams) (e : nat) : nat * outcome nat :=
  if String.eqb (dp_host p) "unreachable"
  then (S e, Raise (Exc NetmikoTimeoutException "timed out"))
  else (S e, Ret 7).

Definition write (path : string) (doc : RunResult) (e : nat)
  : nat * outcome unit :=
  if String.prefix "/readonly" path
  then (e, Raise (Exc OSError "Read-only file system"))
  else (S e, Ret tt).

Definition world : World := {|
  Env := nat;
  Handle := nat;
  ConnectHandler := connect;
  conn_enable := fun _ e => (S e, Ret tt);
  conn_send_command := send;
  conn_disconnect := fun _ e => (S e, Ret tt);
  datetime_now := fun e => (S e, ("2024-05-01T10:00:00", "20240501_100000"));
  path_mkdir := fun _ e => (e, Ret tt);
  path_join := fun d f => (d ++ "/" ++ f)%string;
  write_json := write
|}.

Definition spec (cmd : string) : CommandSpec :=
  {| command := Some cmd; description := Some "demo"; parse := None |}.

Definition cpu : HealthCheckDefinition :=
  {| enabled := Some true;
     commands := Some [spec "show processes cpu"; spec "show bad";
                       spec "show version"] |}.

Definition memory : HealthCheckDefinition :=
  {| enabled := Some false; commands := Some [spec "show memory"] |}.

Definition bare : HealthCheckDefinition :=
  {| enabled := Some true; commands := None |}.

Definition environment : HealthCheckDefinition :=
  {| enabled := Some true; commands := Some [spec "show env all"] |}.

Definition checks_cfg : dict (option HealthCheckDefinition) :=
  [("cpu", Some cpu); ("memory", Some memory); ("bare", Some bare);
   ("environment", Some environment)].

Definition cfg (dir : string) : ConfigModel :=
  {| connection_cfg :=
       Some {| device_type := Some "cisco_ios";
               timeout := Some (YScalar "30");
               global_delay_factor := Some (YScalar "2") |};
     switch_info := Some (YMap (YCons "model" (YScalar "C9300") YNil));
     health_checks := Some checks_cfg;
     output := Some {| file_path := Some dir |} |}.

(** A monitor that holds session 7, and one that never connected. *)
Definition connected : state (W := world) :=
  {| self := Build_monitor (W := world) (cfg "./output") None (Some 7);
     env := 0; trace := [] |}.

Definition offline : state (W := world) :=
  {| self := init (W := world) (cfg "./output"); env := 0; trace := [] |}.

(** A monitor that holds the results of a sweep and saves below
    ["/readonly"]. *)
Definition swept : state (W := world) :=
  let s := fst (execute_all_health_checks connected) in
  {| self := Build_monitor (W := world) (cfg "/readonly") (results (self s))
               (connection (self s));
     env := env s; trace := trace s |}.

End Demo.

(** ** Further vocabulary: what a run leaves in the trace *)

Section Observations.

Context {W : World}.

(** The names of the checks a sweep over a session executes: those that
    pass the test of [execute_health_check], in configuration order. *)
Definition enabled_names (hcs : dict (option HealthCheckDefinition))
  : list string :=
  filter (fun n => negb (skipped (lookup_check n hcs))) (dict_keys hcs).

(** Calls to the file system. *)
Definition is_file_event (ev : event) : bool :=
  match ev with
  | EvMkdir _ _ | EvWrite _ _ _ => true
  | _ => false
  end.

(** Calls that open a session or raise its privilege. *)
Definition is_login_event (ev : event) : bool :=
  match ev with
  | EvConnect _ _ | EvEnable _ _ => true
  | _ => false
  end.

(** Commands sent on the session. *)
Definition is_send_event (ev : event) : bool :=
  match ev with
  | EvSend _ _ _ _ => true
  | _ => false
  end.

(** The keys [connect_to_device] reads with [d[k]]. *)
Definition connection_keys : list string :=
  ["connection"; "device_type"; "timeout"; "global_delay_factor"].

(** A computation whose calls are all of the kind [P], whatever its
    outcome. *)
Definition adds {A} (P : event -> bool) (m : M A) : Prop :=
  forall s,
    exists evs, trace (fst (m s)) = trace s ++ evs /\ forallb P evs = true.

End Observations.

(** ** A device that misbehaves

  A second scripted world: ["show bad"] is interrupted from the keyboard,
  [enable] is refused, and the directory ["/forbidden"] cannot be
  created. *)

Module Faulty.

Definition send (h : nat) (cmd : string) (use_textfsm : bool) (e : nat)
  : nat * outcome payload :=
  if String.eqb cmd "show bad"
  then (S e, Raise (Exc KeyboardInterrupt ""))
  else (S e, Ret (Text cmd)).

Definition mkdir (dir : string) (e : nat) : nat * outcome unit :=
  if String.eqb dir "/forbidden"
  then (e, Raise (Exc OSError "Permission denied"))
  else (e, Ret tt).

Definition world : World := {|
  Env := nat;
  Handle := nat;
  ConnectHandler := Demo.connect;
  conn_enable :=
    fun _ e => (S e, Raise (Exc OtherException "Failed to enter enable mode"));
  conn_send_command := send;
  conn_disconnect := fun _ e => (S e, Ret tt);
  datetime_now := fun e => (S e, ("2024-05-01T10:00:00", "20240501_100000"));
  path_mkdir := mkdir;
  path_join := fun d f => (d ++ "/" ++ f)%string;
  write_json := Demo.write
|}.

(** A check whose second command has lost its [command] key. *)
Definition nameless : CommandSpec :=
  {| command := None; description := Some "no text"; parse := None |}.

Definition broken : HealthCheckDefinition :=
  {| enabled := Some true;
     commands := Some [Demo.spec "show clock"; nameless;
                       Demo.spec "show version"] |}.

Definition broken_cfg : ConfigModel :=
  {| connection_cfg := None;
     switch_info := Some (YScalar "lab");
     health_checks := Some [("broken", Some broken)];
     output := None |}.

(** Monitors over the misbehaving device: one that holds session 7 with
    the demo configuration, one that never connected. *)
Definition connected : state (W := world) :=
  {| self := Build_monitor (W := world) (Demo.cfg "/forbidden") None (Some 7);
     env := 0; trace := [] |}.

Definition offline : state (W := world) :=
  {| self := init (W := world) (Demo.cfg "./output"); env := 0; trace := [] |}.

(** A monitor over the well-behaved device whose configuration is the
    broken one. *)
Definition misconfigured : state (W := Demo.world) :=
  {| self := Build_monitor (W := Demo.world) broken_cfg None (Some 7);
     env := 0; trace := [] |}.

(** A monitor that holds the results of a sweep and saves below
    ["/forbidden"] on the misbehaving device. *)
Definition swept : state (W := world) :=
  {| self := Build_monitor (W := world) (Demo.cfg "/forbidden")
               (results (self Demo.swept)) (Some 7);
     env := 0; trace := [] |}.

End Faulty.

(** ** Start-up: credentials, configuration file, [main]

  What [main] does before its [try] block: it reads the four credentials,
  each from an environment variable or else from a prompt, and builds the
  monitor, which loads the configuration file.  There is no monitor yet,
  so these steps run on the environment alone. *)

Class Startup {W : World} : Type := {
  (* os.getenv(var) *)
  getenv : string -> Env -> option string;
  (* input(prompt) *)
  input : string -> Env -> Env * outcome string;
  (* open(config_file, 'r') followed by yaml.safe_load *)
  read_yaml : string -> Env -> Env * outcome ConfigModel;
  (* the classes the except clauses of _load_config name *)
  is_FileNotFoundError : exn -> bool;
  is_YAMLError : exn -> bool
}.

Section Program.

Context {W : World} {P : Startup}.

Definition IO (A : Type) : Type := Env -> Env * outcome A.

Definition io_raise {A} (x : exn) : IO A := fun e => (e, Raise x).

(** [os.getenv(var) or input(prompt)]: an unset variable and an empty one
    are both falsy. *)
Definition getenv_or_input (var prompt : string) : IO string :=
  fun e =>
    match getenv var e with
    | Some (String a v) => (e, Ret (String a v))
    | _ => input prompt e
    end.

(** Both [except] clauses of [_load_config] log and re-raise. *)
Definition load_handler (x : exn) : option (IO ConfigModel) :=
  if is_FileNotFoundError x then Some (io_raise x)
  else if is_YAMLError x then Some (io_raise x)
  else None.

Definition _load_config (config_file : string) : IO ConfigModel :=
  fun e =>
    match read_yaml config_file e with
    | (e', Ret cfg) => (e', Ret cfg)
    | (e', Raise x) =>
        match load_handler x with
        | Some h => h e'
        | None => (e', Raise x)
        end
    end.

(** [CiscoHealthMonitor(config_file)], that is [__init__]. *)
Definition CiscoHealthMonitor (config_file : string) : IO monitor :=
  fun e =>
    match _load_config config_file e with
    | (e', Ret cfg) =>
        (e', Ret {| config := cfg; results := None; connection := None |})
    | (e', Raise x) => (e', Raise x)
    end.

(** A step of [main] before the [try]: an exception here ends [main],
    with no call made on any session. *)
Definition before_try {A} (m : IO A)
    (k : A -> Env -> Env * list event * outcome unit)
  : Env -> Env * list event * outcome unit :=
  fun e =>
    match m e with
    | (e', Ret a) => k a e'
    | (e', Raise x) => (e', [], Raise x)
    end.

(** [main]: the final environment, the calls made, and how it ended. *)
Definition main : Env -> Env * list event * outcome unit :=
  before_try (getenv_or_input "SWITCH_HOST" "Switch IP/Hostname: ")
    (fun host =>
  before_try (getenv_or_input "SWITCH_USER" "Username: ")
    (fun username =>
  before_try (getenv_or_input "SWITCH_PASS" "Password: ")
    (fun password =>
  before_try (getenv_or_input "SWITCH_SECRET"
                "Enable Secret (press Enter to skip): ")
    (fun secret =>
  before_try (CiscoHealthMonitor "cisco_9300_health_check.yaml")
    (fun monitor e =>
       match main_try host username password secret
               {| self := monitor; env := e; trace := [] |} with
       | (s, r) => (env s, trace s, r)
       end))))).

End Program.

(** A scripted start-up over the demo device: the variables in [vars] are
    set, the prompts are answered from [typed] (an unexpected prompt meets
    the end of input), and the configuration file reads as [file]. *)

Module Console.

Definition prompt_answer (typed : dict string) (prompt : string) (e : nat)
  : nat * outcome string :=
  match dict_get prompt typed with
  | Some "^C" => (e, Raise (Exc KeyboardInterrupt ""))
  | Some line => (e, Ret line)
  | None => (e, Raise (Exc OtherException "EOF when reading a line"))
  end.

Definition read_file (file : outcome ConfigModel) (path : string) (e : nat)
  : nat * outcome ConfigModel :=
  (S e, file).

Definition startup (vars typed : dict string) (file : outcome ConfigModel)
  : Startup (W := Demo.world) :=
  @Build_Startup Demo.world
    (fun var _ => dict_get var vars)
    (prompt_answer typed)
    (read_file file)
    (fun x => String.eqb (exn_str x) "No such file or directory")
    (fun x => String.eqb (exn_str x) "mapping values are not allowed here").

Definition all_set : dict string :=
  [("SWITCH_HOST", "10.0.0.1"); ("SWITCH_USER", "admin");
   ("SWITCH_PASS", "pw"); ("SWITCH_SECRET", "enable")].

(** The host variable is set but empty, and the operator interrupts the
    prompt that follows. *)
Definition empty_host : dict string :=
  [("SWITCH_HOST", ""); ("SWITCH_USER", "admin");
   ("SWITCH_PASS", "pw"); ("SWITCH_SECRET", "enable")].

Definition interrupting : dict string := [("Switch IP/Hostname: ", "^C")].

Definition missing_file : outcome ConfigModel :=
  Raise (Exc OSError "No such file or directory").

End Console.

(** * Properties *)

Unset Implicit Arguments.

Section Facts.

Context {W : World}.

Local Notation "x <- c ;; k" := (bind c (fun x => k))
  (at level 100, c at next level, right associativity).

(** ** Dictionaries *)

Lemma dict_get_set_same {V} (k : string) (v : V) (d : dict V) :
  dict_get k (dict_set k v d) = Some v.
Proof.
  induction d as [|[k' v'] d IH]; simpl.
  - now rewrite String.eqb_refl.
  - destruct (String.eqb k k') eqn:E; simpl; rewrite E; auto.
Qed.

Lemma dict_get_set_other {V} (k k' : string) (v : V) (d : dict V) :
  k <> k' -> dict_get k (dict_set k' v d) = dict_get k d.
Proof.
  intros Hne. induction d as [|[k0 v0] d IH]; simpl.
  - destruct (String.eqb_spec k k'); congruence.
  - destruct (String.eqb_spec k' k0) as [->|Hk]; simpl.
    + destruct (String.eqb_spec k k0); congruence.
    + destruct (String.eqb_spec k k0); auto.
Qed.

Lemma dict_set_values {V} (P : V -> Prop) (k : string) (v : V) (d : dict V) :
  P v -> Forall (fun kv => P (snd kv)) d ->
  Forall (fun kv => P (snd kv)) (dict_set k v d).
Proof.
  intros Hv. induction 1 as [|[k0 v0] d H0 Hd IH]; simpl.
  - repeat constructor; assumption.
  - destruct (String.eqb k k0); constructor; auto.
Qed.

Lemma dict_get_keys {V} (k : string) (d : dict V) (v : V) :
  dict_get k d = Some v -> In k (dict_keys d).
Proof.
  induction d as [|[k0 v0] d IH]; simpl; [discriminate|].
  destruct (String.eqb_spec k k0) as [->|Hk]; auto.
Qed.

Lemma lookup_check_entry (name : string) (hcs : dict (option HealthCheckDefinition)) :
  lookup_check name hcs = None \/
  exists k, In (k, lookup_check name hcs) hcs.
Proof.
  unfold lookup_check. induction hcs as [|[k v] hcs IH]; simpl; auto.
  destruct (String.eqb name k).
  - right. exists k. now left.
  - destruct IH as [IH|[k' IH]]; [now left|right; exists k'; now right].
Qed.

Lemma well_formed_lookup (hcs : dict (option HealthCheckDefinition)) (name : string) :
  commands_well_formed hcs = true ->
  forallb has_command (declared_commands (lookup_check name hcs)) = true.
Proof.
  intros Hwf. destruct (lookup_check_entry name hcs) as [E|[k Hin]].
  - now rewrite E.
  - unfold commands_well_formed in Hwf. rewrite forallb_forall in Hwf.
    exact (Hwf _ Hin).
Qed.

(** ** Traces *)

Lemma sent_app (t1 t2 : list event) : sent (t1 ++ t2) = sent t1 ++ sent t2.
Proof.
  induction t1 as [|ev t1 IH]; simpl; auto.
  destruct ev; simpl; now rewrite ?IH.
Qed.


Lemma torn_down_app (t1 t2 : list event) :
  torn_down (t1 ++ t2) = torn_down t1 ++ torn_down t2.
Proof.
  induction t1 as [|ev t1 IH]; simpl; auto.
  destruct ev; simpl; now rewrite ?IH.
Qed.



Lemma sent_send_events (conn : Handle) (cmds : list CommandSpec)
    (outs : list (outcome payload)) :
  length outs = length cmds ->
  sent (send_events conn cmds outs) = map command_text cmds.
Proof.
  revert outs. induction cmds as [|c cmds IH]; intros [|o outs] Hlen;
    simpl in *; try discriminate; auto.
  f_equal. apply IH. now injection Hlen.
Qed.

(** ** Session-neutral computations *)

Lemma quiet_ret {A} (a : A) : quiet (ret a).
Proof.
  intros s; simpl. repeat split. exists []. now rewrite app_nil_r.
Qed.

Lemma quiet_raise {A} (e : exn) : quiet (raise (A := A) e).
Proof.
  intros s; simpl. repeat split. exists []. now rewrite app_nil_r.
Qed.


Lemma extends_quietly_trans (s s1 s2 : state) :
  extends_quietly s s1 -> extends_quietly s1 s2 -> extends_quietly s s2.
Proof.
  intros (Hc1 & Hn1 & evs1 & Ht1 & Hk1) (Hc & Hn & evs2 & Ht & Hk).
  repeat split; try congruence.
  exists (evs1 ++ evs2). rewrite Ht, Ht1, app_assoc, forallb_app, Hk1, Hk.
  auto.
Qed.

Lemma quiet_steps {A} (m : M A) (s s1 : state) (s2 : state) :
  quiet m -> fst (m s) = s1 -> extends_quietly s1 s2 -> extends_quietly s s2.
Proof.
  intros Hm E H. apply extends_quietly_trans with (s1 := s1); auto.
  rewrite <- E. apply Hm.
Qed.

Lemma quiet_bind {A B} (m : M A) (k : A -> M B) :
  quiet m -> (forall a, quiet (k a)) -> quiet (bind m k).
Proof.
  intros Hm Hk s. unfold bind.
  destruct (m s) as [s1 [a|e]] eqn:E.
  - apply quiet_steps with (m := m) (s1 := s1); auto.
    + now rewrite E.
    + apply Hk.
  - specialize (Hm s). now rewrite E in Hm.
Qed.

Lemma quiet_try_except {A} (body : M A) (handler : exn -> option (M A)) :
  quiet body -> (forall e h, handler e = Some h -> quiet h) ->
  quiet (try_except body handler).
Proof.
  intros Hb Hh s. unfold try_except.
  destruct (body s) as [s1 [a|e]] eqn:E.
  - specialize (Hb s). now rewrite E in Hb.
  - destruct (handler e) as [h|] eqn:Eh.
    + apply quiet_steps with (m := body) (s1 := s1); auto.
      * now rewrite E.
      * apply (Hh _ _ Eh).
    + specialize (Hb s). now rewrite E in Hb.
Qed.

Lemma quiet_call {A} (f : Env -> Env * outcome A) (ev : outcome A -> event) :
  (forall r, keeps_session (ev r) = true) -> quiet (call f ev).
Proof.
  intros Hev s. unfold call. destruct (f (env s)) as [e' r]; simpl.
  repeat split. exists [ev r]. simpl. now rewrite Hev.
Qed.

Lemma quiet_now : quiet now.
Proof.
  intros s. unfold now. destruct (datetime_now (env s)) as [e' t]; simpl.
  repeat split. exists []. now rewrite app_nil_r.
Qed.

Lemma quiet_get_self : quiet get_self.
Proof.
  intros s; simpl. repeat split. exists []. now rewrite app_nil_r.
Qed.

Lemma quiet_set_results (r : option RunResult) : quiet (set_results r).
Proof.
  intros s; simpl. repeat split. exists []. now rewrite app_nil_r.
Qed.

Lemma quiet_subscript {A} (k : string) (o : option A) : quiet (subscript k o).
Proof.
  destruct o; simpl; [apply quiet_ret|apply quiet_raise].
Qed.

Create HintDb quiet.

#[local] Hint Resolve quiet_ret quiet_raise quiet_now quiet_get_self
  quiet_set_results quiet_subscript : quiet.

Ltac quiet_step :=
  first
    [ apply quiet_bind; [|intros ?]
    | apply quiet_try_except; [|intros ? ? ?]
    | apply quiet_call; intros ?; reflexivity
    | solve [auto with quiet] ].

Lemma quiet_run_commands (conn : Handle) (cmds : list CommandSpec) :
  forall acc, quiet (run_commands conn cmds acc).
Proof.
  induction cmds as [|c cmds IH]; intros acc; simpl.
  - apply quiet_ret.
  - repeat quiet_step; auto.
    destruct (is_Exception _); [|discriminate].
    match goal with H : Some _ = Some _ |- _ => injection H as <- end.
    apply quiet_ret.
Qed.

Lemma quiet_execute_health_check (name : string) :
  quiet (execute_health_check name).
Proof.
  unfold execute_health_check. quiet_step; [quiet_step|].
  destruct (connection _); [|apply quiet_ret].
  quiet_step; [quiet_step|].
  destruct (skipped _); [apply quiet_ret|].
  repeat quiet_step. apply quiet_run_commands.
Qed.

Lemma quiet_run_checks (names : list string) :
  forall acc, quiet (run_checks names acc).
Proof.
  induction names as [|n names IH]; intros acc; simpl.
  - apply quiet_ret.
  - quiet_step; [apply quiet_execute_health_check|].
    match goal with |- quiet (match ?r with _ => _ end) => destruct r end; apply IH.
Qed.

Lemma quiet_execute_all_health_checks : quiet execute_all_health_checks.
Proof.
  unfold execute_all_health_checks. repeat quiet_step.
  apply quiet_run_checks.
Qed.

Lemma quiet_save_results (output_dir : option string) :
  quiet (save_results output_dir).
Proof.
  unfold save_results. quiet_step; [quiet_step|].
  destruct (results _); [|apply quiet_ret].
  repeat quiet_step.
  unfold save_handler in *. destruct (is_Exception _); [|discriminate].
  match goal with H : Some _ = Some _ |- _ => injection H as <- end.
  apply quiet_ret.
Qed.


(** ** The command loop *)

Lemma results_of_cons (c : CommandSpec) (cmds : list CommandSpec)
    (o : outcome payload) (outs : list (outcome payload)) :
  results_of (c :: cmds) (o :: outs) = result_of c o :: results_of cmds outs.
Proof. reflexivity. Qed.

Lemma send_events_cons (conn : Handle) (c : CommandSpec)
    (cmds : list CommandSpec) (o : outcome payload)
    (outs : list (outcome payload)) :
  send_events conn (c :: cmds) (o :: outs)
  = send_event conn c o :: send_events conn cmds outs.
Proof. reflexivity. Qed.

(** One turn of the loop: the command is sent once, and whatever the send
    did short of an interrupt, the loop goes on with one more result. *)
Lemma run_commands_step (conn : Handle) (c : CommandSpec)
    (rest : list CommandSpec) (acc : list CommandResult) (s : state)
    (cmd : string) (e' : Env) (o : outcome payload) :
  command c = Some cmd ->
  conn_send_command conn cmd (parse_flag c) (env s) = (e', o) ->
  uninterrupted o = true ->
  run_commands conn (c :: rest) acc s
  = run_commands conn rest (acc ++ [result_of c o])
      {| self := self s; env := e';
         trace := trace s ++ [send_event conn c o] |}.
Proof.
  intros Hc Hs Ho. unfold parse_flag in Hs. simpl.
  unfold bind, try_except, call, subscript, ret. rewrite Hc. simpl.
  rewrite Hs.
  unfold send_event, result_of, command_text, description_text, parse_flag.
  rewrite Hc. destruct o as [out|e]; simpl in *; [reflexivity|].
  now rewrite Ho.
Qed.

Lemma run_commands_inv (conn : Handle) (cmds : list CommandSpec) :
  forall acc s s' rs,
    run_commands conn cmds acc s = (s', Ret rs) ->
    exists outs,
      rs = acc ++ results_of cmds outs /\
      length outs = length cmds /\
      forallb uninterrupted outs = true /\
      forallb has_command cmds = true /\
      self s' = self s /\
      trace s' = trace s ++ send_events conn cmds outs.
Proof.
  induction cmds as [|c cmds IH]; intros acc s s' rs H.
  - simpl in H. injection H as <- <-. exists [].
    now rewrite !app_nil_r.
  - destruct (command c) as [cmd|] eqn:Hc.
    2:{ simpl in H. unfold bind, subscript, raise in H. rewrite Hc in H.
        discriminate. }
    destruct (conn_send_command conn cmd (parse_flag c) (env s)) as [e' o] eqn:Hs.
    destruct (uninterrupted o) eqn:Ho.
    + rewrite (run_commands_step _ _ cmds acc _ _ _ _ Hc Hs Ho) in H.
      apply IH in H as (outs & -> & Hlen & Hun & Hwf & Hself & Htr).
      exists (o :: outs). rewrite results_of_cons, send_events_cons.
      simpl in *. unfold has_command at 1.
      rewrite Hc, Ho, Hun, Hwf, Hlen, Hself, Htr, <- !app_assoc.
      simpl. auto 10.
    + exfalso. destruct o as [out|e]; [discriminate|]. simpl in Ho, H.
      unfold parse_flag in Hs.
      unfold bind, try_except, call, subscript, ret in H. rewrite Hc in H.
      simpl in H. rewrite Hs, Ho in H. discriminate.
Qed.

Lemma run_commands_returns (conn : Handle) (cmds : list CommandSpec) :
  sends_uninterrupted ->
  forallb has_command cmds = true ->
  forall acc s, exists s' rs, run_commands conn cmds acc s = (s', Ret rs).
Proof.
  intros Hun. induction cmds as [|c cmds IH]; intros Hwf acc s.
  - simpl. unfold ret. eauto.
  - simpl in Hwf. apply andb_true_iff in Hwf as [Hc Hwf].
    unfold has_command in Hc. destruct (command c) as [cmd|] eqn:E; [|discriminate].
    destruct (conn_send_command conn cmd (parse_flag c) (env s)) as [e' o] eqn:Hs.
    assert (Ho : uninterrupted o = true).
    { specialize (Hun conn cmd (parse_flag c) (env s)). now rewrite Hs in Hun. }
    rewrite (run_commands_step _ _ cmds acc _ _ _ _ E Hs Ho). apply IH, Hwf.
Qed.

Lemma result_of_consistent (c : CommandSpec) (o : outcome payload) :
  consistent (result_of c o) = true.
Proof. destruct o; reflexivity. Qed.

Lemma results_of_consistent (cmds : list CommandSpec)
    (outs : list (outcome payload)) :
  forallb consistent (results_of cmds outs) = true.
Proof.
  unfold results_of. induction (combine cmds outs) as [|co l IH]; simpl; auto.
  now rewrite result_of_consistent.
Qed.

Lemma results_of_length (cmds : list CommandSpec)
    (outs : list (outcome payload)) :
  length outs = length cmds -> length (results_of cmds outs) = length cmds.
Proof.
  intros H. unfold results_of.
  rewrite length_map, length_combine, H. apply Nat.min_id.
Qed.

Lemma results_of_commands (cmds : list CommandSpec)
    (outs : list (outcome payload)) :
  length outs = length cmds ->
  map (@cr_command) (results_of cmds outs) = map command_text cmds /\
  map (@cr_description) (results_of cmds outs) = map description_text cmds.
Proof.
  revert outs. induction cmds as [|c cmds IH]; intros [|o outs] Hlen;
    simpl in *; try discriminate; auto.
  injection Hlen as Hlen. destruct (IH _ Hlen) as [H1 H2].
  fold (results_of cmds outs). rewrite H1, H2. destruct o; auto.
Qed.

(** ** One check *)

Lemma execute_health_check_offline (name : string) (s : state) :
  connection (self s) = None ->
  execute_health_check name s = (s, Ret None).
Proof.
  intros H. unfold execute_health_check, bind, get_self. now rewrite H.
Qed.

Lemma execute_health_check_skipped (name : string) (s : state)
    (conn : Handle) (hcs : dict (option HealthCheckDefinition)) :
  connection (self s) = Some conn ->
  health_checks (config (self s)) = Some hcs ->
  skipped (lookup_check name hcs) = true ->
  execute_health_check name s = (s, Ret None).
Proof.
  intros Hc Hh Hs. unfold execute_health_check, bind, get_self.
  rewrite Hc, Hh. simpl. now rewrite Hs.
Qed.

(** An enabled check over a session: the timestamp is read, then the loop
    runs. *)
Lemma execute_health_check_enabled (name : string) (s : state)
    (conn : Handle) (hcs : dict (option HealthCheckDefinition)) :
  connection (self s) = Some conn ->
  health_checks (config (self s)) = Some hcs ->
  skipped (lookup_check name hcs) = false ->
  execute_health_check name s
  = match run_commands conn (declared_commands (lookup_check name hcs)) []
            {| self := self s; env := fst (datetime_now (env s));
               trace := trace s |} with
    | (s', Ret rs) =>
        (s', Ret (Some {| check_name := name;
                          timestamp := fst (snd (datetime_now (env s)));
                          cr_commands := rs |}))
    | (s', Raise e) => (s', Raise e)
    end.
Proof.
  intros Hc Hh Hs. unfold execute_health_check, bind, get_self, now.
  rewrite Hc, Hh. simpl. rewrite Hs.
  destruct (datetime_now (env s)) as [e' t]; simpl. reflexivity.
Qed.

Lemma execute_health_check_inv (name : string) (s s' : state)
    (o : option CheckResult) :
  execute_health_check name s = (s', Ret o) ->
  match o with
  | None =>
      s' = s /\
      (connection (self s) = None \/
       exists hcs, health_checks (config (self s)) = Some hcs /\
                   skipped (lookup_check name hcs) = true)
  | Some r =>
      exists conn hcs outs,
        connection (self s) = Some conn /\
        health_checks (config (self s)) = Some hcs /\
        skipped (lookup_check name hcs) = false /\
        check_name r = name /\
        cr_commands r
        = results_of (declared_commands (lookup_check name hcs)) outs /\
        length outs = length (declared_commands (lookup_check name hcs)) /\
        forallb has_command (declared_commands (lookup_check name hcs)) = true /\
        self s' = self s /\
        trace s'
        = trace s ++ send_events conn (declared_commands (lookup_check name hcs)) outs
  end.
Proof.
  intros H.
  destruct (connection (self s)) as [conn|] eqn:Hc.
  2:{ rewrite (execute_health_check_offline name _ Hc) in H.
      injection H as <- <-. auto. }
  destruct (health_checks (config (self s))) as [hcs|] eqn:Hh.
  2:{ unfold execute_health_check, bind, get_self in H.
      rewrite Hc, Hh in H. discriminate. }
  destruct (skipped (lookup_check name hcs)) eqn:Hs.
  - rewrite (execute_health_check_skipped name _ _ _ Hc Hh Hs) in H.
    injection H as <- <-. split; auto. right. eauto.
  - rewrite (execute_health_check_enabled name _ _ _ Hc Hh Hs) in H.
    destruct (run_commands _ _ _ _) as [s1 [rs|e]] eqn:Hr; [|discriminate].
    injection H as <- <-.
    apply run_commands_inv in Hr as (outs & -> & Hlen & _ & Hwf & Hself & Htr).
    exists conn, hcs, outs. simpl in *. auto 10.
Qed.

Lemma execute_health_check_returns (name : string) (s : state)
    (conn : Handle) (hcs : dict (option HealthCheckDefinition)) :
  sends_uninterrupted ->
  connection (self s) = Some conn ->
  health_checks (config (self s)) = Some hcs ->
  forallb has_command (declared_commands (lookup_check name hcs)) = true ->
  exists s' o, execute_health_check name s = (s', Ret o).
Proof.
  intros Hun Hc Hh Hwf.
  destruct (skipped (lookup_check name hcs)) eqn:Hs.
  - rewrite (execute_health_check_skipped name _ _ _ Hc Hh Hs). eauto.
  - rewrite (execute_health_check_enabled name _ _ _ Hc Hh Hs).
    destruct (run_commands_returns conn _ Hun Hwf []
                {| self := self s; env := fst (datetime_now (env s));
                   trace := trace s |}) as (s' & rs & ->).
    eauto.
Qed.

(** ** The sweep *)

Lemma run_checks_offline (names : list string) :
  forall acc s,
    connection (self s) = None -> run_checks names acc s = (s, Ret acc).
Proof.
  induction names as [|n names IH]; intros acc s Hc; simpl; [reflexivity|].
  unfold bind. rewrite (execute_health_check_offline n s Hc). now apply IH.
Qed.

(** One turn of the sweep that ends normally. *)
Lemma run_checks_cons_inv (n : string) (names : list string)
    (acc acc' : dict CheckResult) (s s' : state) :
  run_checks (n :: names) acc s = (s', Ret acc') ->
  exists s1 o,
    execute_health_check n s = (s1, Ret o) /\
    config (self s1) = config (self s) /\
    connection (self s1) = connection (self s) /\
    run_checks names
      (match o with Some r => dict_set n r acc | None => acc end) s1
    = (s', Ret acc').
Proof.
  intros H. simpl in H. unfold bind in H.
  destruct (execute_health_check n s) as [s1 [o|e]] eqn:E; [|discriminate].
  exists s1, o. destruct (quiet_execute_health_check n s) as (Hc & Hn & _).
  rewrite E in Hc, Hn. simpl in *. repeat split; auto.
  destruct o; exact H.
Qed.

Lemma run_checks_omits (name : string)
    (hcs : dict (option HealthCheckDefinition)) (names : list string) :
  skipped (lookup_check name hcs) = true ->
  forall acc s s' acc',
    health_checks (config (self s)) = Some hcs ->
    run_checks names acc s = (s', Ret acc') ->
    dict_get name acc = None -> dict_get name acc' = None.
Proof.
  intros Hskip. induction names as [|n names IH]; intros acc s s' acc' Hh H Hacc.
  - simpl in H. injection H as <- <-. exact Hacc.
  - apply run_checks_cons_inv in H as (s1 & o & He & Hc & _ & H).
    eapply IH; [|exact H|]; [congruence|].
    destruct o as [r|]; [|exact Hacc].
    apply execute_health_check_inv in He
      as (conn & hcs' & outs & _ & Hh' & Hs & _).
    assert (hcs' = hcs) by congruence. subst hcs'.
    rewrite dict_get_set_other; [exact Hacc|].
    intros ->. congruence.
Qed.

Lemma run_checks_includes (name : string) (conn : Handle)
    (hcs : dict (option HealthCheckDefinition)) (names : list string) :
  skipped (lookup_check name hcs) = false ->
  declared_commands (lookup_check name hcs) = [] ->
  forall acc s s' acc',
    connection (self s) = Some conn ->
    health_checks (config (self s)) = Some hcs ->
    run_checks names acc s = (s', Ret acc') ->
    In name names \/
    (exists r, dict_get name acc = Some r /\ check_name r = name /\
               cr_commands r = []) ->
    exists r, dict_get name acc' = Some r /\ check_name r = name /\
              cr_commands r = [].
Proof.
  intros Hskip Hcmds.
  induction names as [|n names IH]; intros acc s s' acc' Hc Hh H Hin.
  - simpl in H. injection H as <- <-. destruct Hin as [[]|Hin]; exact Hin.
  - apply run_checks_cons_inv in H as (s1 & o & He & Hc1 & Hn1 & H).
    eapply IH; [| |exact H|]; [congruence|congruence|].
    apply execute_health_check_inv in He.
    destruct (String.eqb_spec n name) as [->|Hne].
    + right. destruct o as [r|].
      * destruct He as (conn' & hcs' & outs & _ & Hh' & _ & Hname & Hr & _).
        assert (hcs' = hcs) by congruence. subst hcs'.
        rewrite Hcmds in Hr. exists r. rewrite dict_get_set_same. auto.
      * destruct He as (_ & [He|(hcs' & Hh' & Hs)]); congruence.
    + destruct Hin as [[Heq|Hin]|(r & Hr)]; [congruence|now left|right].
      exists r. destruct o; [rewrite dict_get_set_other|]; auto.
Qed.

Lemma run_checks_consistent (names : list string) :
  forall acc s s' acc',
    run_checks names acc s = (s', Ret acc') ->
    all_consistent acc -> all_consistent acc'.
Proof.
  induction names as [|n names IH]; intros acc s s' acc' H Hacc.
  - simpl in H. injection H as <- <-. exact Hacc.
  - apply run_checks_cons_inv in H as (s1 & o & He & _ & _ & H).
    apply (IH _ _ _ _ H). destruct o as [r|]; [|exact Hacc].
    apply execute_health_check_inv in He
      as (conn & hcs & outs & _ & _ & _ & _ & Hr & _).
    apply (dict_set_values
             (fun c => forallb consistent (cr_commands c) = true)); auto.
    rewrite Hr. apply results_of_consistent.
Qed.


Lemma run_checks_returns (conn : Handle)
    (hcs : dict (option HealthCheckDefinition)) (names : list string) :
  sends_uninterrupted ->
  commands_well_formed hcs = true ->
  forall acc s,
    connection (self s) = Some conn ->
    health_checks (config (self s)) = Some hcs ->
    exists s' acc', run_checks names acc s = (s', Ret acc').
Proof.
  intros Hun Hwf. induction names as [|n names IH]; intros acc s Hc Hh.
  - simpl. unfold ret. eauto.
  - destruct (execute_health_check_returns n s conn hcs Hun Hc Hh
                (well_formed_lookup hcs n Hwf)) as (s1 & o & He).
    destruct (quiet_execute_health_check n s) as (Hc1 & Hn1 & _).
    rewrite He in Hc1, Hn1. simpl in Hc1, Hn1.
    simpl. unfold bind. rewrite He.
    destruct o; apply IH; congruence.
Qed.

Lemma execute_all_health_checks_inv (s s' : state) (rr : RunResult) :
  execute_all_health_checks s = (s', Ret rr) ->
  exists hcs s0 s1,
    health_checks (config (self s)) = Some hcs /\
    switch_info (config (self s)) = Some (device_info rr) /\
    self s0 = self s /\ trace s0 = trace s /\
    run_checks (dict_keys hcs) [] s0 = (s1, Ret (checks rr)) /\
    trace s' = trace s1 /\
    results (self s') = Some rr /\
    config (self s') = config (self s) /\
    connection (self s') = connection (self s).
Proof.
  intros H. pose proof (quiet_execute_all_health_checks s) as (Hc & Hn & _).
  rewrite H in Hc, Hn. simpl in Hc, Hn.
  unfold execute_all_health_checks, bind, get_self, now, set_results, ret in H.
  destruct (switch_info (config (self s))) as [info|]; [|discriminate].
  simpl in H. destruct (datetime_now (env s)) as [e1 t].
  destruct (health_checks (config (self s))) as [hcs|]; [|discriminate].
  simpl in H.
  destruct (run_checks (dict_keys hcs) [] _) as [s1 [cs|e]] eqn:Hr;
    [|discriminate].
  injection H as <- <-. simpl in *.
  exists hcs, {| self := self s; env := e1; trace := trace s |}, s1.
  repeat split; auto.
Qed.

Lemma execute_all_health_checks_returns (s : state)
    (hcs : dict (option HealthCheckDefinition)) (info : yaml) :
  sends_uninterrupted ->
  commands_well_formed hcs = true ->
  health_checks (config (self s)) = Some hcs ->
  switch_info (config (self s)) = Some info ->
  exists s' rr, execute_all_health_checks s = (s', Ret rr).
Proof.
  intros Hun Hwf Hh Hi.
  unfold execute_all_health_checks, bind, get_self, now, set_results, ret.
  rewrite Hi, Hh. simpl. destruct (datetime_now (env s)) as [e1 t].
  set (s0 := {| self := self s; env := e1; trace := trace s |}).
  destruct (connection (self s)) as [conn|] eqn:Hc.
  - destruct (run_checks_returns conn hcs (dict_keys hcs) Hun Hwf [] s0 Hc Hh)
      as (s1 & cs & ->). eauto.
  - rewrite (run_checks_offline (dict_keys hcs) [] s0 Hc). eauto.
Qed.

Lemma results_of_nth (cmds : list CommandSpec) :
  forall (outs : list (outcome payload)) (i : nat) (c : CommandSpec)
         (o : outcome payload),
    nth_error cmds i = Some c -> nth_error outs i = Some o ->
    nth_error (results_of cmds outs) i = Some (result_of c o).
Proof.
  induction cmds as [|c0 cmds IH]; intros [|o0 outs] [|i] c o Hc Ho;
    simpl in *; try discriminate.
  - now injection Hc as ->; injection Ho as ->.
  - now apply IH.
Qed.

Lemma consistent_spec (c : CommandResult) :
  consistent c = true ->
  (cr_status c = "success" /\ cr_output c <> None /\ cr_error c = None) \/
  (cr_status c = "failed" /\ cr_output c = None /\ cr_error c <> None).
Proof.
  unfold consistent. destruct (cr_output c), (cr_error c); try discriminate;
    intros H; apply String.eqb_eq in H; [left|right]; repeat split;
    auto; discriminate.
Qed.

(** ** The claims about check execution *)






(** C2.  For an enabled check over an active session, any result the check
    returns has one CommandResult per declared CommandSpec, in declaration
    order, with the command text and description of the spec at the same
    position, whether the sends succeeded or failed; and when no send is
    interrupted and every spec has its command text, the check does return
    such a result. *)
Theorem check_result_mirrors_commands (s : state) (conn : Handle)
    (hcs : dict (option HealthCheckDefinition)) (name : string) :
  connection (self s) = Some conn ->
  health_checks (config (self s)) = Some hcs ->
  skipped (lookup_check name hcs) = false ->
  (forall s' o,
      execute_health_check name s = (s', Ret o) ->
      exists r,
        o = Some r /\
        length (cr_commands r)
        = length (declared_commands (lookup_check name hcs)) /\
        map cr_command (cr_commands r)
        = map command_text (declared_commands (lookup_check name hcs)) /\
        map cr_description (cr_commands r)
        = map description_text (declared_commands (lookup_check name hcs))) /\
  (sends_uninterrupted ->
   forallb has_command (declared_commands (lookup_check name hcs)) = true ->
   exists s' r, execute_health_check name s = (s', Ret (Some r))).
Proof.
  intros Hc Hh Hs.
  assert (Hshape : forall s' o,
             execute_health_check name s = (s', Ret o) ->
             exists r,
               o = Some r /\
               length (cr_commands r)
               = length (declared_commands (lookup_check name hcs)) /\
               map cr_command (cr_commands r)
               = map command_text (declared_commands (lookup_check name hcs)) /\
               map cr_description (cr_commands r)
               = map description_text (declared_commands (lookup_check name hcs))).
  { intros s' o He. apply execute_health_check_inv in He.
    destruct o as [r|].
    - destruct He as (conn' & hcs' & outs & _ & Hh' & _ & _ & Hr & Hlen & _).
      assert (hcs' = hcs) by congruence. subst hcs'.
      exists r. rewrite Hr. split; [reflexivity|].
      split; [now apply results_of_length|now apply results_of_commands].
    - destruct He as (_ & [Hn|(hcs' & Hh' & Hs')]); congruence. }
  split; [exact Hshape|].
  intros Hun Hwf.
  destruct (execute_health_check_returns name s conn hcs Hun Hc Hh Hwf)
    as (s' & o & He).
  destruct (Hshape s' o He) as (r & -> & _). eauto.
Qed.

(** C3.  Every CommandResult of a CheckResult that a check returns, and of
    every CheckResult stored in the RunResult a sweep returns, has exactly
    one of [output] and [error]: status "success" with an output and no
    error, or status "failed" with an error and no output. *)
Theorem command_results_are_consistent (s s' : state) :
  (forall name r c,
      execute_health_check name s = (s', Ret (Some r)) ->
      In c (cr_commands r) ->
      (cr_status c = "success" /\ cr_output c <> None /\ cr_error c = None) \/
      (cr_status c = "failed" /\ cr_output c = None /\ cr_error c <> None)) /\
  (forall rr name r c,
      execute_all_health_checks s = (s', Ret rr) ->
      In (name, r) (checks rr) ->
      In c (cr_commands r) ->
      (cr_status c = "success" /\ cr_output c <> None /\ cr_error c = None) \/
      (cr_status c = "failed" /\ cr_output c = None /\ cr_error c <> None)).
Proof.
  split.
  - intros name r c He Hin. apply consistent_spec.
    apply execute_health_check_inv in He
      as (conn & hcs & outs & _ & _ & _ & _ & Hr & _).
    pose proof (results_of_consistent
                  (declared_commands (lookup_check name hcs)) outs) as Hall.
    rewrite <- Hr, forallb_forall in Hall. now apply Hall.
  - intros rr name r c He Hin Hc. apply consistent_spec.
    apply execute_all_health_checks_inv in He
      as (hcs & s0 & s1 & _ & _ & _ & _ & Hr & _).
    apply run_checks_consistent in Hr; [|constructor].
    unfold all_consistent in Hr. rewrite Forall_forall in Hr.
    specialize (Hr _ Hin). simpl in Hr. rewrite forallb_forall in Hr.
    now apply Hr.
Qed.

(** C4.  Whatever the configuration, a check name that is absent from
    [health_checks], or whose definition has [enabled: false], is not a key
    of the [checks] mapping of the RunResult a sweep returns. *)
Theorem disabled_checks_are_omitted (s s' : state) (rr : RunResult)
    (hcs : dict (option HealthCheckDefinition)) (name : string) :
  health_checks (config (self s)) = Some hcs ->
  (dict_get name hcs = None \/
   exists d, dict_get name hcs = Some (Some d) /\ enabled d = Some false) ->
  execute_all_health_checks s = (s', Ret rr) ->
  dict_get name (checks rr) = None.
Proof.
  intros Hh Hname He.
  assert (Hskip : skipped (lookup_check name hcs) = true).
  { unfold skipped, lookup_check, hc_truthy, hc_enabled.
    destruct Hname as [->|(d & -> & Hd)]; [reflexivity|].
    rewrite Hd. apply orb_true_r. }
  apply execute_all_health_checks_inv in He
    as (hcs' & s0 & s1 & Hh' & _ & Hs0 & _ & Hr & _).
  assert (hcs' = hcs) by congruence. subst hcs'.
  apply (run_checks_omits name hcs (dict_keys hcs) Hskip [] s0 s1 (checks rr));
    auto; congruence.
Qed.


(** C10.  An enabled check whose definition has no [commands] key, or an
    empty [commands] list, returns over an active session a CheckResult
    with its name and an empty [commands] sequence; the RunResult a sweep
    returns holds such a CheckResult under the name of the check; and the
    sweep does return when no send is interrupted and every declared
    command has its text. *)
Theorem empty_check_is_reported (s : state) (conn : Handle)
    (hcs : dict (option HealthCheckDefinition)) (info : yaml)
    (name : string) (d : HealthCheckDefinition) :
  connection (self s) = Some conn ->
  health_checks (config (self s)) = Some hcs ->
  switch_info (config (self s)) = Some info ->
  dict_get name hcs = Some (Some d) ->
  enabled d = Some true ->
  (commands d = None \/ commands d = Some []) ->
  (exists s' r,
      execute_health_check name s = (s', Ret (Some r)) /\
      check_name r = name /\ cr_commands r = []) /\
  (forall s' rr,
      execute_all_health_checks s = (s', Ret rr) ->
      exists r, dict_get name (checks rr) = Some r /\
                check_name r = name /\ cr_commands r = []) /\
  (sends_uninterrupted -> commands_well_formed hcs = true ->
   exists s' rr, execute_all_health_checks s = (s', Ret rr)).
Proof.
  intros Hc Hh Hi Hd Hen Hcmds.
  assert (Hl : lookup_check name hcs = Some d).
  { unfold lookup_check. now rewrite Hd. }
  assert (Hs : skipped (lookup_check name hcs) = false).
  { rewrite Hl. unfold skipped, hc_truthy, hc_enabled. now rewrite Hen. }
  assert (Hdc : declared_commands (lookup_check name hcs) = []).
  { rewrite Hl. simpl. destruct Hcmds as [->| ->]; reflexivity. }
  repeat split.
  - rewrite (execute_health_check_enabled name s conn hcs Hc Hh Hs), Hdc.
    simpl. eexists _, _. split; [reflexivity|]. simpl. auto.
  - intros s' rr He.
    apply execute_all_health_checks_inv in He
      as (hcs' & s0 & s1 & Hh' & _ & Hs0 & _ & Hr & _).
    assert (hcs' = hcs) by congruence. subst hcs'.
    apply (run_checks_includes name conn hcs (dict_keys hcs) Hs Hdc
             [] s0 s1 (checks rr)); try congruence.
    left. apply (dict_get_keys name hcs _ Hd).
  - intros Hun Hwf.
    apply (execute_all_health_checks_returns s hcs info Hun Hwf Hh Hi).
Qed.

(** ** Persistence and analysis *)

(** C7.  When the monitor holds a RunResult and the write of the result
    file raises an exception, [save_results] returns [None] (no path) and
    leaves the monitor, and with it the RunResult it holds, as it was. *)
Theorem save_failure_keeps_results (s s' : state) (output_dir : option string)
    (r : outcome (option string)) (evs : list event) (path : string)
    (doc : RunResult) (x : exn) :
  save_results output_dir s = (s', r) ->
  trace s' = trace s ++ evs ->
  In (EvWrite path doc (Raise x)) evs ->
  is_Exception x = true ->
  r = Ret None /\ self s' = self s /\ results (self s') = Some doc.
Proof.
  unfold save_results, bind, get_self, try_except, call, now, ret.
  intros H Ht Hin Hx.
  destruct (results (self s)) as [doc0|] eqn:Hres.
  2:{ injection H as <- <-. rewrite <- (app_nil_r (trace s)) in Ht at 1.
      apply app_inv_head in Ht. subst evs. destruct Hin. }
  destruct (path_mkdir _ (env s)) as [e1 [[]|e]]; cbn [env self trace] in H.
  2:{ injection H as <- <-. cbn [trace] in Ht. apply app_inv_head in Ht.
      subst evs. destruct Hin as [Hin|[]]. discriminate. }
  destruct (datetime_now e1) as [e2 t]; cbn [env self trace] in H.
  destruct (write_json _ doc0 e2) as [e3 o] eqn:Hw; cbn [env self trace] in H.
  assert (Ho : o = Raise x /\ doc0 = doc).
  { destruct o as [[]|x0].
    - injection H as <- <-. cbn [trace] in Ht.
      rewrite <- app_assoc in Ht. apply app_inv_head in Ht. subst evs.
      destruct Hin as [Hin|[Hin|[]]]; discriminate.
    - assert (Ht' : exists d p,
                 trace s' = (trace s ++ [EvMkdir d (Ret tt)])
                            ++ [EvWrite p doc0 (Raise x0)]).
      { unfold save_handler in H. destruct (is_Exception x0);
          injection H as <- <-; eexists _, _; reflexivity. }
      destruct Ht' as (d & p & Ht').
      rewrite Ht, <- app_assoc in Ht'. apply app_inv_head in Ht'. subst evs.
      destruct Hin as [Hin|[Hin|[]]]; [discriminate|].
      injection Hin as _ <- <-. auto. }
  destruct Ho as [-> ->]. unfold save_handler in H. rewrite Hx in H.
  injection H as <- <-. cbn [self]. auto.
Qed.

(** C8.  With the rule set the script has, which is empty, threshold
    analysis returns an empty alert sequence in every state of the
    monitor, whatever RunResult it holds, and changes nothing. *)
Theorem no_rules_no_alerts (s : state) :
  exists a, analyze_thresholds s = (s, Ret a) /\ alerts a = [].
Proof.
  exists {| alerts := [] |}. split; reflexivity.
Qed.

(** ** Release of the session *)

Lemma disconnect_with_session (s : state) (conn : Handle) :
  connection (self s) = Some conn ->
  exists e' r,
    conn_disconnect conn (env s) = (e', r) /\
    disconnect s
    = ({| self := self s; env := e';
          trace := trace s ++ [EvDisconnectCall; EvTeardown conn r] |}, r).
Proof.
  intros Hc. unfold disconnect, bind, mark, get_self, call.
  cbn [self env trace]. rewrite Hc. cbn [self env trace].
  destruct (conn_disconnect conn (env s)) as [e' r].
  exists e', r. now rewrite <- app_assoc.
Qed.

Lemma disconnect_without_session (s : state) :
  connection (self s) = None ->
  disconnect s
  = ({| self := self s; env := env s;
        trace := trace s ++ [EvDisconnectCall] |}, Ret tt).
Proof.
  intros Hc. unfold disconnect, bind, mark, get_self. simpl. now rewrite Hc.
Qed.

(** C5, as the code has it.  [disconnect] never clears the session
    reference of the monitor.  While the monitor holds a session, every
    call tears the session down once more: two calls in a row give two
    teardowns of the same session.  Only a monitor that holds no session
    is left alone: there [disconnect] never reaches a session, however
    often it is called. *)
Theorem disconnect_tears_down_on_every_call (s : state) :
  (forall conn,
      connection (self s) = Some conn ->
      exists s1 r1 s2 r2,
        disconnect s = (s1, r1) /\ disconnect s1 = (s2, r2) /\
        connection (self s1) = Some conn /\
        connection (self s2) = Some conn /\
        trace s1 = trace s ++ [EvDisconnectCall; EvTeardown conn r1] /\
        trace s2 = trace s1 ++ [EvDisconnectCall; EvTeardown conn r2] /\
        torn_down (trace s2) = torn_down (trace s) ++ [conn; conn]) /\
  (connection (self s) = None ->
   torn_down (trace (fst (disconnect s))) = torn_down (trace s) /\
   second_disconnect_is_noop s).
Proof.
  split.
  - intros conn Hc.
    destruct (disconnect_with_session s conn Hc) as (e1 & r1 & _ & H1).
    set (s1 := {| self := self s; env := e1;
                  trace := trace s ++ [EvDisconnectCall; EvTeardown conn r1] |}) in *.
    destruct (disconnect_with_session s1 conn Hc) as (e2 & r2 & _ & H2).
    eexists s1, r1, _, r2. split; [exact H1|]. split; [exact H2|].
    simpl. repeat split; auto.
    rewrite !torn_down_app, <- app_assoc. reflexivity.
  - intros Hc. unfold second_disconnect_is_noop.
    rewrite (disconnect_without_session s Hc). simpl.
    rewrite disconnect_without_session by exact Hc. simpl.
    rewrite !torn_down_app. simpl. now rewrite !app_nil_r.
Qed.

Lemma try_finally_state {A} (body : M A) (fin : M unit) (s : state) :
  fst (try_finally body fin s) = fst (fin (fst (body s))).
Proof.
  unfold try_finally. destruct (body s) as [s1 r]. simpl.
  now destruct (fin s1) as [s2 [u|e]].
Qed.








(** * Further properties of the monitor *)

(** ** When a check does not return *)

Lemma send_events_app (conn : Handle) (pre : list CommandSpec)
    (outs : list (outcome payload)) (c : CommandSpec) (o : outcome payload)
    (rest : list event) :
  send_event conn c o :: send_events conn pre outs ++ rest
  = send_events conn (c :: pre) (o :: outs) ++ rest.
Proof. reflexivity. Qed.

(** The loop raises in one of two ways: at a spec without its [command]
    key, before anything is sent for it, or at a send that raised something
    [except Exception] does not catch.  Either way the specs before it were
    all sent, none of those sends was interrupted, and nothing after it is
    sent. *)
Lemma run_commands_raise_inv (conn : Handle) (cmds : list CommandSpec) :
  forall acc s s' e,
    run_commands conn cmds acc s = (s', Raise e) ->
    exists pre c post outs,
      cmds = pre ++ c :: post /\
      length outs = length pre /\
      forallb uninterrupted outs = true /\
      self s' = self s /\
      ((command c = None /\ e = key_error "command" /\
        trace s' = trace s ++ send_events conn pre outs) \/
       (is_Exception e = false /\ has_command c = true /\
        trace s'
        = trace s ++ send_events conn pre outs ++ [send_event conn c (Raise e)])).
Proof.
  induction cmds as [|c cmds IH]; intros acc s s' e H.
  - simpl in H. discriminate.
  - destruct (command c) as [cmd|] eqn:Hc.
    2:{ simpl in H. unfold bind, subscript, raise in H. rewrite Hc in H.
        injection H as <- <-. exists [], c, cmds, []. simpl.
        rewrite app_nil_r. auto 8. }
    destruct (conn_send_command conn cmd (parse_flag c) (env s)) as [e' o] eqn:Hs.
    destruct (uninterrupted o) eqn:Ho.
    + rewrite (run_commands_step _ _ cmds acc _ _ _ _ Hc Hs Ho) in H.
      apply IH in H
        as (pre & c0 & post & outs & -> & Hlen & Hun & Hself & Hcase).
      exists (c :: pre), c0, post, (o :: outs). simpl in *.
      rewrite Hlen, Hself, Ho, Hun. repeat split; auto.
      destruct Hcase as [(Hn & He & Ht)|(Hx & Hhc & Ht)]; [left|right];
        rewrite Ht, <- app_assoc; auto.
    + destruct o as [out|x]; [discriminate|]. simpl in Ho, H.
      unfold parse_flag in Hs.
      unfold bind, try_except, call, subscript, ret in H. rewrite Hc in H.
      simpl in H. rewrite Hs, Ho in H. injection H as <- <-.
      exists [], c, cmds, []. simpl. repeat split; auto. right.
      unfold send_event, command_text, parse_flag, has_command.
      rewrite Hc. auto.
Qed.

Lemma execute_health_check_raise_inv (name : string) (s s' : state) (e : exn) :
  execute_health_check name s = (s', Raise e) ->
  exists conn,
    connection (self s) = Some conn /\ self s' = self s /\
    ((health_checks (config (self s)) = None /\
      e = key_error "health_checks" /\ trace s' = trace s) \/
     (exists hcs pre c post outs,
         health_checks (config (self s)) = Some hcs /\
         skipped (lookup_check name hcs) = false /\
         declared_commands (lookup_check name hcs) = pre ++ c :: post /\
         length outs = length pre /\
         forallb uninterrupted outs = true /\
         ((command c = None /\ e = key_error "command" /\
           trace s' = trace s ++ send_events conn pre outs) \/
          (is_Exception e = false /\ has_command c = true /\
           trace s'
           = trace s ++ send_events conn pre outs
                     ++ [send_event conn c (Raise e)])))).
Proof.
  intros H.
  destruct (connection (self s)) as [conn|] eqn:Hc.
  2:{ rewrite (execute_health_check_offline name _ Hc) in H. discriminate. }
  exists conn. split; [reflexivity|].
  destruct (health_checks (config (self s))) as [hcs|] eqn:Hh.
  2:{ unfold execute_health_check, bind, get_self in H.
      rewrite Hc, Hh in H. injection H as <- <-. auto. }
  destruct (skipped (lookup_check name hcs)) eqn:Hs.
  - rewrite (execute_health_check_skipped name _ _ _ Hc Hh Hs) in H.
    discriminate.
  - rewrite (execute_health_check_enabled name _ _ _ Hc Hh Hs) in H.
    destruct (run_commands _ _ _ _) as [s1 [rs|x]] eqn:Hr; [discriminate|].
    injection H as <- <-.
    apply run_commands_raise_inv in Hr
      as (pre & c & post & outs & Hcmds & Hlen & Hun & Hself & Hcase).
    simpl in *. split; [exact Hself|]. right.
    exists hcs, pre, c, post, outs. auto 8.
Qed.

(** What a check that returns has sent: one send per declared command,
    none of them interrupted. *)
Lemma execute_health_check_sends (name : string) (s s' : state)
    (r : CheckResult) :
  execute_health_check name s = (s', Ret (Some r)) ->
  exists conn cmds outs,
    length outs = length cmds /\
    forallb uninterrupted outs = true /\
    cr_commands r = results_of cmds outs /\
    trace s' = trace s ++ send_events conn cmds outs.
Proof.
  intros H.
  destruct (connection (self s)) as [conn|] eqn:Hc.
  2:{ rewrite (execute_health_check_offline name _ Hc) in H. discriminate. }
  destruct (health_checks (config (self s))) as [hcs|] eqn:Hh.
  2:{ unfold execute_health_check, bind, get_self in H.
      rewrite Hc, Hh in H. discriminate. }
  destruct (skipped (lookup_check name hcs)) eqn:Hs.
  - rewrite (execute_health_check_skipped name _ _ _ Hc Hh Hs) in H.
    discriminate.
  - rewrite (execute_health_check_enabled name _ _ _ Hc Hh Hs) in H.
    destruct (run_commands _ _ _ _) as [s1 [rs|x]] eqn:Hr; [|discriminate].
    injection H as <- <-.
    apply run_commands_inv in Hr as (outs & -> & Hlen & Hun & _ & _ & Ht).
    exists conn, (declared_commands (lookup_check name hcs)), outs.
    simpl in *. auto.
Qed.

Lemma send_events_nth (conn : Handle) (cmds : list CommandSpec) :
  forall (outs : list (outcome payload)) (i : nat) (ev : event),
    nth_error (send_events conn cmds outs) i = Some ev ->
    exists c o,
      nth_error cmds i = Some c /\ nth_error outs i = Some o /\
      ev = send_event conn c o.
Proof.
  induction cmds as [|c cmds IH]; intros [|o outs] [|i] ev H;
    simpl in *; try discriminate.
  - injection H as <-. exists c, o. auto.
  - now apply IH.
Qed.

Lemma send_events_uninterrupted (conn : Handle) (cmds : list CommandSpec)
    (outs : list (outcome payload)) (h : Handle) (cmd : string) (flag : bool)
    (o : outcome payload) :
  forallb uninterrupted outs = true ->
  In (EvSend h cmd flag o) (send_events conn cmds outs) ->
  uninterrupted o = true.
Proof.
  intros Hun Hin. unfold send_events in Hin. apply in_map_iff in Hin
    as ([c o'] & Hev & Hin). apply in_combine_r in Hin.
  unfold send_event in Hev. simpl in Hev. injection Hev as _ _ _ <-.
  rewrite forallb_forall in Hun. now apply Hun.
Qed.

(** X1.  The result of a check records the sends one for one: when a
    check returns, its [commands] sequence is as long as the list of calls
    it made on the session, and the record at each position tells what the
    send at that position did.  A send that raised [e] is recorded with
    status "failed", the error [str(e)] and no output; a send that returned
    is recorded with status "success", its output and no error. *)
Theorem results_record_the_sends (name : string) (s s' : state)
    (r : CheckResult) (evs : list event) :
  execute_health_check name s = (s', Ret (Some r)) ->
  trace s' = trace s ++ evs ->
  length (cr_commands r) = length evs /\
  forall i conn cmd flag o,
    nth_error evs i = Some (EvSend conn cmd flag o) ->
    exists res,
      nth_error (cr_commands r) i = Some res /\
      cr_command res = cmd /\
      match o with
      | Ret out =>
          cr_status res = "success" /\ cr_output res = Some out /\
          cr_error res = None
      | Raise e =>
          cr_status res = "failed" /\ cr_error res = Some (exn_str e) /\
          cr_output res = None
      end.
Proof.
  intros H Ht.
  apply execute_health_check_sends in H
    as (conn & cmds & outs & Hlen & _ & Hr & Ht').
  rewrite Ht in Ht'. apply app_inv_head in Ht'. subst evs. split.
  - rewrite Hr, results_of_length by exact Hlen.
    unfold send_events. now rewrite length_map, length_combine, Hlen, Nat.min_id.
  - intros i conn' cmd flag o Hev.
    apply send_events_nth in Hev as (c & o' & Hc & Ho & Hev).
    unfold send_event in Hev. injection Hev as -> -> -> ->.
    exists (result_of c o'). split.
    + rewrite Hr. now apply results_of_nth.
    + split; [now destruct o'|]. destruct o'; repeat split.
Qed.

(** X2.  A send that is interrupted stops the check on the spot.  When a
    send of the check raised something that is not an [Exception], the
    check raises it; the interrupted send is the last call on the session;
    before it the commands declared earlier were sent, in order and
    without interruption; and the commands declared after it are never
    sent.  The monitor is left as it was. *)
Theorem interrupt_stops_the_check (name : string) (s s' : state)
    (r : outcome (option CheckResult)) (evs : list event) (h : Handle)
    (cmd : string) (flag : bool) (e : exn) :
  execute_health_check name s = (s', r) ->
  trace s' = trace s ++ evs ->
  In (EvSend h cmd flag (Raise e)) evs ->
  is_Exception e = false ->
  r = Raise e /\
  self s' = self s /\
  exists hcs pre c post outs,
    health_checks (config (self s)) = Some hcs /\
    declared_commands (lookup_check name hcs) = pre ++ c :: post /\
    command c = Some cmd /\
    length outs = length pre /\
    forallb uninterrupted outs = true /\
    evs = send_events h pre outs ++ [EvSend h cmd flag (Raise e)] /\
    sent evs = map command_text pre ++ [cmd].
Proof.
  intros H Ht Hin Hx.
  assert (Hno : forall conn cmds outs,
             forallb uninterrupted outs = true ->
             ~ In (EvSend h cmd flag (Raise e)) (send_events conn cmds outs)).
  { intros conn cmds outs Hun Hin'.
    apply (send_events_uninterrupted _ _ _ _ _ _ _ Hun) in Hin'.
    simpl in Hin'. congruence. }
  destruct r as [[cr|]|x].
  - exfalso. apply execute_health_check_sends in H
      as (conn & cmds & outs & _ & Hun & _ & Ht').
    rewrite Ht in Ht'. apply app_inv_head in Ht'. subst evs.
    exact (Hno _ _ _ Hun Hin).
  - exfalso. apply execute_health_check_inv in H as [-> _].
    rewrite <- (app_nil_r (trace s)) in Ht at 1.
    apply app_inv_head in Ht. subst evs. destruct Hin.
  - apply execute_health_check_raise_inv in H as (conn & Hc & Hself & Hcase).
    destruct Hcase
      as [(_ & _ & Ht')
         |(hcs & pre & c & post & outs & Hh & _ & Hd & Hlen & Hun
           & [(_ & _ & Ht')|(Hx' & Hhc & Ht')])].
    + exfalso. rewrite <- (app_nil_r (trace s)) in Ht' at 1.
      rewrite Ht in Ht'. apply app_inv_head in Ht'. subst evs. destruct Hin.
    + exfalso. rewrite Ht in Ht'. apply app_inv_head in Ht'. subst evs.
      exact (Hno _ _ _ Hun Hin).
    + rewrite Ht in Ht'. apply app_inv_head in Ht'. subst evs.
      apply in_app_or in Hin as [Hin|[Hin|[]]];
        [exfalso; exact (Hno _ _ _ Hun Hin)|].
      unfold send_event in Hin. injection Hin as Hconn Hcmd Hflag He.
      subst conn x.
      assert (Hcc : command c = Some cmd).
      { unfold has_command in Hhc. unfold command_text in Hcmd.
        destruct (command c) as [cmd'|]; [|discriminate].
        simpl in Hcmd. now subst. }
      split; [reflexivity|]. split; [exact Hself|].
      exists hcs, pre, c, post, outs. repeat split; auto.
      * unfold send_event. now rewrite Hcmd, Hflag.
      * rewrite sent_app, sent_send_events by exact Hlen.
        simpl. now rewrite Hcmd.
Qed.

(** X3.  A spec without its [command] key makes the check raise
    [KeyError('command')] when the loop reaches it: the commands declared
    before it have been sent by then, and their results are lost with the
    check. *)
Theorem missing_command_key_raises (name : string) (s : state) (conn : Handle)
    (hcs : dict (option HealthCheckDefinition))
    (pre post : list CommandSpec) (c : CommandSpec) :
  sends_uninterrupted ->
  connection (self s) = Some conn ->
  health_checks (config (self s)) = Some hcs ->
  skipped (lookup_check name hcs) = false ->
  declared_commands (lookup_check name hcs) = pre ++ c :: post ->
  forallb has_command pre = true ->
  command c = None ->
  exists s',
    execute_health_check name s = (s', Raise (key_error "command")) /\
    self s' = self s /\
    sent (trace s') = sent (trace s) ++ map command_text pre.
Proof.
  intros Hun Hc Hh Hs Hd Hpre Hcmd.
  rewrite (execute_health_check_enabled name _ _ _ Hc Hh Hs), Hd.
  set (s0 := {| self := self s; env := fst (datetime_now (env s));
                trace := trace s |}).
  assert (Hloop : forall acc st,
             exists st',
               run_commands conn (pre ++ c :: post) acc st
               = (st', Raise (key_error "command")) /\
               self st' = self st /\
               sent (trace st') = sent (trace st) ++ map command_text pre).
  { clear Hd. induction pre as [|p pre IH]; intros acc st.
    - simpl. unfold bind, subscript, raise. rewrite Hcmd.
      exists st. now rewrite app_nil_r.
    - simpl in Hpre. apply andb_true_iff in Hpre as [Hp Hpre].
      unfold has_command in Hp.
      destruct (command p) as [cmd|] eqn:E; [|discriminate].
      destruct (conn_send_command conn cmd (parse_flag p) (env st))
        as [e' o] eqn:Hsend.
      assert (Ho : uninterrupted o = true).
      { specialize (Hun conn cmd (parse_flag p) (env st)).
        now rewrite Hsend in Hun. }
      change ((p :: pre) ++ c :: post) with (p :: (pre ++ c :: post)).
      rewrite (run_commands_step _ _ _ acc _ _ _ _ E Hsend Ho).
      destruct (IH Hpre (acc ++ [result_of p o])
                  {| self := self st; env := e';
                     trace := trace st ++ [send_event conn p o] |})
        as (st' & Hr & Hself & Hsent).
      exists st'. split; [exact Hr|]. split; [exact Hself|].
      rewrite Hsent. cbn [trace map]. rewrite sent_app, <- app_assoc.
      reflexivity. }
  destruct (Hloop [] s0) as (s' & -> & Hself & Hsent).
  exists s'. auto.
Qed.

(** ** When a sweep does not return, and what it returns *)

Lemma run_checks_self (names : list string) :
  forall acc s s' r,
    run_checks names acc s = (s', r) -> self s' = self s.
Proof.
  induction names as [|n names IH]; intros acc s s' r H.
  - simpl in H. now injection H as <- <-.
  - simpl in H. unfold bind in H.
    destruct (execute_health_check n s) as [s1 [o|e]] eqn:E.
    + assert (Hs1 : self s1 = self s).
      { apply execute_health_check_inv in E. destruct o as [c|].
        - destruct E as (conn & hcs & outs & _ & _ & _ & _ & _ & _ & _ & Hs & _).
          exact Hs.
        - destruct E as [-> _]. reflexivity. }
      rewrite <- Hs1. destruct o; exact (IH _ _ _ _ H).
    + injection H as <- <-.
      now apply execute_health_check_raise_inv in E as (conn & _ & Hs & _).
Qed.

(** X4.  A sweep that raises, whatever the reason, leaves the monitor
    exactly as it was: in particular [self.results] keeps the value it
    had, it is not replaced by a partial result. *)
Theorem failed_sweep_keeps_monitor (s s' : state) (e : exn) :
  execute_all_health_checks s = (s', Raise e) ->
  self s' = self s.
Proof.
  unfold execute_all_health_checks, bind, get_self, now, set_results, ret.
  intros H.
  destruct (switch_info (config (self s))) as [info|].
  2:{ now injection H as <- <-. }
  cbn [subscript ret] in H. destruct (datetime_now (env s)) as [e1 t].
  destruct (health_checks (config (self s))) as [hcs|].
  2:{ now injection H as <- <-. }
  cbn [subscript ret] in H.
  destruct (run_checks (dict_keys hcs) [] _) as [s1 [cs|x]] eqn:Hr;
    [discriminate|].
  injection H as <- <-.
  exact (run_checks_self _ _ _ _ _ Hr).
Qed.

Lemma dict_keys_set_fresh {V} (k : string) (v : V) (d : dict V) :
  ~ In k (dict_keys d) -> dict_keys (dict_set k v d) = dict_keys d ++ [k].
Proof.
  induction d as [|[k0 v0] d IH]; simpl; intros Hk; [reflexivity|].
  destruct (String.eqb_spec k k0) as [->|Hne].
  - exfalso. apply Hk. now left.
  - simpl. f_equal. apply IH. intros Hin. apply Hk. now right.
Qed.

Lemma dict_set_In {V} (k : string) (v : V) (d : dict V) (k' : string) (v' : V) :
  In (k', v') (dict_set k v d) -> (k' = k /\ v' = v) \/ In (k', v') d.
Proof.
  induction d as [|[k0 v0] d IH]; simpl.
  - intros [H|[]]. injection H as <- <-. auto.
  - destruct (String.eqb_spec k k0) as [->|Hne]; simpl.
    + intros [H|H]; [injection H as <- <-|]; auto.
    + intros [H|H]; [auto|]. destruct (IH H); auto.
Qed.

Lemma run_checks_keys (conn : Handle)
    (hcs : dict (option HealthCheckDefinition)) (names : list string) :
  NoDup names ->
  forall acc s s' acc',
    (forall n, In n names -> ~ In n (dict_keys acc)) ->
    connection (self s) = Some conn ->
    health_checks (config (self s)) = Some hcs ->
    run_checks names acc s = (s', Ret acc') ->
    dict_keys acc'
    = dict_keys acc
      ++ filter (fun n => negb (skipped (lookup_check n hcs))) names.
Proof.
  induction 1 as [|n names Hn Hnd IH]; intros acc s s' acc' Hfresh Hc Hh H.
  - simpl in H. injection H as <- <-. simpl. now rewrite app_nil_r.
  - apply run_checks_cons_inv in H as (s1 & o & He & Hc1 & Hn1 & H).
    apply execute_health_check_inv in He. simpl.
    destruct o as [r|].
    + destruct He as (conn' & hcs' & outs & _ & Hh' & Hs & _).
      assert (hcs' = hcs) by congruence. subst hcs'. rewrite Hs. simpl.
      erewrite IH; [| | | |exact H]; try congruence.
      * rewrite dict_keys_set_fresh by (apply Hfresh; now left).
        now rewrite <- app_assoc.
      * intros m Hm. rewrite dict_keys_set_fresh by (apply Hfresh; now left).
        intros Hin. apply in_app_or in Hin as [Hin|[->|[]]]; [|contradiction].
        apply (Hfresh m); [now right|exact Hin].
    + destruct He as (_ & [He|(hcs' & Hh' & Hs)]); [congruence|].
      assert (hcs' = hcs) by congruence. subst hcs'. rewrite Hs. simpl.
      eapply IH; [| | |exact H]; try congruence.
      intros m Hm. apply Hfresh. now right.
Qed.

(** X5.  Over a session, the keys of the [checks] mapping a sweep returns
    are exactly the names of the enabled checks, in the order in which the
    configuration declares them (the keys of a mapping are distinct). *)
Theorem checks_are_the_enabled_names (s s' : state) (rr : RunResult)
    (conn : Handle) (hcs : dict (option HealthCheckDefinition)) :
  connection (self s) = Some conn ->
  health_checks (config (self s)) = Some hcs ->
  NoDup (dict_keys hcs) ->
  execute_all_health_checks s = (s', Ret rr) ->
  dict_keys (checks rr) = enabled_names hcs.
Proof.
  intros Hc Hh Hnd He.
  apply execute_all_health_checks_inv in He
    as (hcs' & s0 & s1 & Hh' & _ & Hs0 & _ & Hr & _).
  assert (hcs' = hcs) by congruence. subst hcs'.
  apply (run_checks_keys conn hcs (dict_keys hcs) Hnd [] s0 s1 (checks rr));
    try congruence.
  intros n _ [].
Qed.

Lemma run_checks_names (names : list string) :
  forall acc s s' acc',
    run_checks names acc s = (s', Ret acc') ->
    (forall n r, In (n, r) acc -> check_name r = n) ->
    forall n r, In (n, r) acc' -> check_name r = n.
Proof.
  induction names as [|m names IH]; intros acc s s' acc' H Hacc.
  - simpl in H. injection H as <- <-. exact Hacc.
  - apply run_checks_cons_inv in H as (s1 & o & He & _ & _ & H).
    apply (IH _ _ _ _ H). destruct o as [r0|]; [|exact Hacc].
    apply execute_health_check_inv in He
      as (conn & hcs & outs & _ & _ & _ & Hname & _).
    intros n r Hin. apply dict_set_In in Hin as [[-> ->]|Hin]; auto.
Qed.

(** X6.  Every CheckResult in the [checks] mapping of a returned RunResult
    sits under its own name: the key equals its [check_name] field. *)
Theorem check_results_sit_under_their_name (s s' : state) (rr : RunResult)
    (n : string) (r : CheckResult) :
  execute_all_health_checks s = (s', Ret rr) ->
  In (n, r) (checks rr) ->
  check_name r = n.
Proof.
  intros He Hin.
  apply execute_all_health_checks_inv in He
    as (hcs & s0 & s1 & _ & _ & _ & _ & Hr & _).
  apply (run_checks_names _ _ _ _ _ Hr (fun _ _ H => match H with end) n r Hin).
Qed.

(** ** What [save_results] does to the file system *)

(** The cases of [save_results]: nothing to save; the directory cannot be
    created; the directory is created and the write returns or raises. *)
Lemma save_results_cases (output_dir : option string) (s s' : state)
    (r : outcome (option string)) :
  save_results output_dir s = (s', r) ->
  (results (self s) = None /\ s' = s /\ r = Ret None) \/
  (exists doc dir,
      results (self s) = Some doc /\ self s' = self s /\
      dir = match output_dir with
            | Some d => d
            | None =>
                get_default
                  (file_path (get_default (output (config (self s)))
                                {| file_path := None |}))
                  "./output"
            end /\
      ((exists x, trace s' = trace s ++ [EvMkdir dir (Raise x)] /\ r = Raise x) \/
       (exists stamp o,
           trace s'
           = trace s
             ++ [EvMkdir dir (Ret tt);
                 EvWrite (path_join dir
                            ("cisco9300_health_" ++ stamp ++ ".json")%string)
                   doc o] /\
           r = match o with
               | Ret _ =>
                   Ret (Some (path_join dir
                                ("cisco9300_health_" ++ stamp ++ ".json")%string))
               | Raise x => if is_Exception x then Ret None else Raise x
               end))).
Proof.
  unfold save_results, bind, get_self, try_except, call, now, ret.
  intros H.
  destruct (results (self s)) as [doc|] eqn:Hres.
  2:{ injection H as <- <-. auto. }
  right.
  match type of H with
  | context [path_mkdir ?d _] => set (dir := d) in *
  end.
  exists doc, dir. split; [reflexivity|].
  destruct (path_mkdir dir (env s)) as [e1 [[]|x]]; cbn [env self trace] in H.
  2:{ injection H as <- <-. cbn [self trace]. split; [reflexivity|].
      split; [reflexivity|]. left. exists x. auto. }
  destruct (datetime_now e1) as [e2 [iso stamp]]; cbn [env self trace snd] in H.
  set (p := path_join dir ("cisco9300_health_" ++ stamp ++ ".json")%string) in *.
  destruct (write_json p doc e2) as [e3 [[]|x]]; cbn [env self trace] in H.
  - injection H as <- <-. cbn [self trace]. split; [reflexivity|].
    split; [reflexivity|]. right. exists stamp, (Ret tt).
    now rewrite <- app_assoc.
  - unfold save_handler in H.
    assert (Hs : self s' = self s /\
                 trace s' = (trace s ++ [EvMkdir dir (Ret tt)])
                            ++ [EvWrite p doc (Raise x)] /\
                 r = if is_Exception x then Ret None else Raise x).
    { destruct (is_Exception x); injection H as <- <-; auto. }
    destruct Hs as (Hself & Ht & Hr). split; [exact Hself|].
    split; [reflexivity|]. right. exists stamp, (Raise x).
    now rewrite Ht, <- app_assoc.
Qed.

(** X7.  A path returned by [save_results] is the path of a file that was
    written with the RunResult the monitor holds: the directory was
    created, then the document was written to
    [<dir>/cisco9300_health_<stamp>.json], and the monitor is unchanged.
    The directory is the argument when one is given, else [file_path] of
    the [output] section, else ["./output"]. *)
Theorem saved_path_means_written (output_dir : option string) (s s' : state)
    (p : string) :
  save_results output_dir s = (s', Ret (Some p)) ->
  exists doc dir stamp,
    results (self s) = Some doc /\
    self s' = self s /\
    p = path_join dir ("cisco9300_health_" ++ stamp ++ ".json")%string /\
    trace s' = trace s ++ [EvMkdir dir (Ret tt); EvWrite p doc (Ret tt)] /\
    (forall d, output_dir = Some d -> dir = d) /\
    (forall o d,
        output_dir = None -> output (config (self s)) = Some o ->
        file_path o = Some d -> dir = d) /\
    (output_dir = None ->
     (output (config (self s)) = None \/
      exists o, output (config (self s)) = Some o /\ file_path o = None) ->
     dir = "./output").
Proof.
  intros H. apply save_results_cases in H
    as [(_ & _ & H)|(doc & dir & Hres & Hself & Hdir & Hcase)];
    [discriminate|].
  destruct Hcase as [(x & _ & H)|(stamp & o & Ht & Hr)]; [discriminate|].
  destruct o as [[]|x].
  2:{ destruct (is_Exception x); discriminate. }
  injection Hr as ->. exists doc, dir, stamp.
  repeat split; auto.
  - intros d ->. exact Hdir.
  - intros o d -> Ho Hf. rewrite Ho in Hdir. simpl in Hdir.
    rewrite Hf in Hdir. exact Hdir.
  - intros -> [Ho|(o & Ho & Hf)]; rewrite Ho in Hdir; simpl in Hdir;
      [|rewrite Hf in Hdir]; exact Hdir.
Qed.

(** X8.  [save_results] returns [None] in two situations only: the monitor
    holds no results, and then the file system is not touched at all; or
    the directory was created and the write raised an [Exception]. *)
Theorem none_means_nothing_saved (output_dir : option string) (s s' : state) :
  save_results output_dir s = (s', Ret None) ->
  (results (self s) = None /\ s' = s) \/
  (exists dir p doc x,
      results (self s) = Some doc /\ is_Exception x = true /\
      trace s'
      = trace s ++ [EvMkdir dir (Ret tt); EvWrite p doc (Raise x)]).
Proof.
  intros H. apply save_results_cases in H
    as [(Hres & Hs & _)|(doc & dir & Hres & _ & _ & Hcase)]; [auto|].
  right. destruct Hcase as [(x & _ & H)|(stamp & o & Ht & Hr)]; [discriminate|].
  destruct o as [[]|x]; [discriminate|].
  destruct (is_Exception x) eqn:Hx; [|discriminate].
  eexists dir, _, doc, x. eauto.
Qed.

(** X9.  The creation of the output directory is outside the [try] of
    [save_results]: when it raises, even an ordinary [Exception] such as a
    permission error, [save_results] raises it instead of returning [None],
    and no write is attempted. *)
Theorem mkdir_failure_escapes (output_dir : option string) (s s' : state)
    (r : outcome (option string)) (evs : list event) (dir : string) (x : exn) :
  save_results output_dir s = (s', r) ->
  trace s' = trace s ++ evs ->
  In (EvMkdir dir (Raise x)) evs ->
  r = Raise x /\ evs = [EvMkdir dir (Raise x)] /\ self s' = self s.
Proof.
  intros H Ht Hin. apply save_results_cases in H
    as [(_ & -> & _)|(doc & dir' & _ & Hself & _ & Hcase)].
  - rewrite <- (app_nil_r (trace s)) in Ht at 1.
    apply app_inv_head in Ht. subst evs. destruct Hin.
  - destruct Hcase as [(x' & Ht' & ->)|(stamp & o & Ht' & _)];
      rewrite Ht in Ht'; apply app_inv_head in Ht'; subst evs.
    + destruct Hin as [Hin|[]]. injection Hin as -> ->. auto.
    + destruct Hin as [Hin|[Hin|[]]]; discriminate.
Qed.

(** X10.  Sweep, then save: the document written is the RunResult the
    sweep returned, the same one the monitor holds. *)
Theorem sweep_then_save_writes_the_sweep (output_dir : option string)
    (s s1 s2 : state) (rr : RunResult) (p : string) :
  execute_all_health_checks s = (s1, Ret rr) ->
  save_results output_dir s1 = (s2, Ret (Some p)) ->
  exists dir,
    trace s2 = trace s1 ++ [EvMkdir dir (Ret tt); EvWrite p rr (Ret tt)] /\
    results (self s2) = Some rr.
Proof.
  intros He Hs.
  apply execute_all_health_checks_inv in He
    as (hcs & s0 & s0' & _ & _ & _ & _ & _ & _ & Hres & _).
  apply save_results_cases in Hs
    as [(_ & _ & H)|(doc & dir & Hdoc & Hself & _ & Hcase)]; [discriminate|].
  assert (doc = rr) by congruence. subst doc.
  destruct Hcase as [(x & _ & H)|(stamp & o & Ht & Hr)]; [discriminate|].
  destruct o as [[]|x].
  2:{ destruct (is_Exception x); discriminate. }
  injection Hr as ->. exists dir. split; [exact Ht|congruence].
Qed.

(** ** What [connect_to_device] returns *)

Lemma connect_handler_spec (x : exn) :
  connect_handler x = if is_Exception x then Some (ret false) else None.
Proof.
  unfold connect_handler, is_class, is_Exception.
  destruct (exn_cls x); reflexivity.
Qed.

(** The cases of [connect_to_device]: a key of the [connection] section is
    missing; [ConnectHandler] raises; [ConnectHandler] returns a session,
    which is stored at once, and [enable] is called when there is a
    secret. *)
Lemma connect_to_device_cases (host username password : string)
    (secret : option string) (s s' : state) (r : outcome bool) :
  connect_to_device host username password secret s = (s', r) ->
  (exists k, In k connection_keys /\ s' = s /\ r = Raise (key_error k)) \/
  (exists p,
      (dp_host p = host /\ dp_username p = username /\
       dp_password p = password /\
       dp_secret p = if truthy_str secret then secret else None) /\
      ((exists x,
           self s' = self s /\
           trace s' = trace s ++ [EvConnect p (Raise x)] /\
           r = if is_Exception x then Ret false else Raise x) \/
       (exists h,
           connection (self s') = Some h /\
           config (self s') = config (self s) /\
           results (self s') = results (self s) /\
           ((truthy_str secret = false /\
             trace s' = trace s ++ [EvConnect p (Ret h)] /\ r = Ret true) \/
            (truthy_str secret = true /\
             exists o,
               trace s' = trace s ++ [EvConnect p (Ret h); EvEnable h o] /\
               r = match o with
                   | Ret _ => Ret true
                   | Raise x => if is_Exception x then Ret false else Raise x
                   end))))).
Proof.
  unfold connect_to_device, bind, get_self, try_except, call,
    set_connection, ret, connection_keys.
  intros H.
  destruct (connection_cfg (config (self s))) as [c|].
  2:{ injection H as <- <-. left. exists "connection". simpl. auto. }
  cbn [subscript ret] in H. destruct (device_type c) as [dt|].
  2:{ injection H as <- <-. left. exists "device_type". simpl. auto. }
  cbn [subscript ret] in H. destruct (timeout c) as [tmo|].
  2:{ injection H as <- <-. left. exists "timeout". simpl. auto. }
  cbn [subscript ret] in H. destruct (global_delay_factor c) as [gdf|].
  2:{ injection H as <- <-. left. exists "global_delay_factor". simpl. auto 6. }
  cbn [subscript ret] in H. right.
  match type of H with
  | context [ConnectHandler ?q _] => set (p := q) in *
  end.
  exists p. split; [subst p; simpl; auto|].
  destruct (ConnectHandler p (env s)) as [e1 [h|x]]; cbn [env self trace] in H.
  - right. exists h.
    destruct (truthy_str secret) eqn:Hsec; cbn [env self trace] in H.
    + destruct (conn_enable h e1) as [e2 [[]|x]]; cbn [env self trace] in H.
      * injection H as <- <-. cbn [self trace connection config results].
        repeat split. right. split; [reflexivity|]. exists (Ret tt).
        now rewrite <- app_assoc.
      * rewrite connect_handler_spec in H.
        assert (Hs : connection (self s') = Some h /\
                     config (self s') = config (self s) /\
                     results (self s') = results (self s) /\
                     trace s' = (trace s ++ [EvConnect p (Ret h)])
                                ++ [EvEnable h (Raise x)] /\
                     r = if is_Exception x then Ret false else Raise x).
        { destruct (is_Exception x); injection H as <- <-; auto. }
        destruct Hs as (Hc & Hcfg & Hres & Ht & Hr). repeat split; auto.
        right. split; [reflexivity|]. exists (Raise x).
        now rewrite Ht, <- app_assoc.
    + injection H as <- <-. cbn [self trace connection config results]. auto 8.
  - left. exists x. rewrite connect_handler_spec in H.
    destruct (is_Exception x); injection H as <- <-; auto.
Qed.

(** X11.  [connect_to_device] returns [True] only with a live session in
    hand: [ConnectHandler] was called once with the host and credentials
    given (and the secret exactly when it is non-empty), it returned the
    session the monitor now references, and when a secret was given
    [enable] was then called on that session and returned. *)
Theorem connect_true_means_session (host username password : string)
    (secret : option string) (s s' : state) :
  connect_to_device host username password secret s = (s', Ret true) ->
  exists p h,
    dp_host p = host /\ dp_username p = username /\
    dp_password p = password /\
    dp_secret p = (if truthy_str secret then secret else None) /\
    connection (self s') = Some h /\
    trace s'
    = trace s ++ EvConnect p (Ret h)
                 :: (if truthy_str secret then [EvEnable h (Ret tt)] else []).
Proof.
  intros H. apply connect_to_device_cases in H
    as [(k & _ & _ & H)|(p & (Hh & Hu & Hp & Hs) & Hcase)]; [discriminate|].
  exists p.
  destruct Hcase as [(x & _ & _ & H)|(h & Hc & _ & _ & Hcase)].
  { destruct (is_Exception x); discriminate. }
  exists h. repeat split; auto.
  destruct Hcase as [(-> & Ht & _)|(-> & o & Ht & Hr)]; [exact Ht|].
  destruct o as [[]|x]; [exact Ht|].
  destruct (is_Exception x); discriminate.
Qed.

(** X12.  [connect_to_device] returns [False] only when netmiko refused
    with an [Exception], in one of two places.  Either [ConnectHandler]
    raised: no session exists and the monitor is unchanged.  Or the
    session was opened and [enable] raised: then the monitor keeps the
    reference to that session, although the method reports failure. *)
Theorem connect_false_means_refused (host username password : string)
    (secret : option string) (s s' : state) :
  connect_to_device host username password secret s = (s', Ret false) ->
  exists p x,
    is_Exception x = true /\
    ((self s' = self s /\ trace s' = trace s ++ [EvConnect p (Raise x)]) \/
     (exists h,
         connection (self s') = Some h /\
         trace s' = trace s ++ [EvConnect p (Ret h); EvEnable h (Raise x)])).
Proof.
  intros H. apply connect_to_device_cases in H
    as [(k & _ & _ & H)|(p & _ & Hcase)]; [discriminate|].
  exists p.
  destruct Hcase as [(x & Hs & Ht & Hr)|(h & Hc & _ & _ & Hcase)].
  - exists x. destruct (is_Exception x); [auto|discriminate].
  - destruct Hcase as [(_ & _ & H)|(_ & o & Ht & Hr)]; [discriminate|].
    destruct o as [[]|x]; [discriminate|]. exists x.
    destruct (is_Exception x); [|discriminate].
    split; [reflexivity|]. right. exists h. auto.
Qed.

(** X13.  What netmiko raises while connecting decides the outcome, and
    ends the method.  When [ConnectHandler] or [enable] raised an
    [Exception], [connect_to_device] returns [False]: the exception does
    not escape.  When one of them raised something that is not an
    [Exception], that is what [connect_to_device] raises.  In both cases
    the call that raised is the last one the method makes. *)
Theorem connect_absorbs_session_errors (host username password : string)
    (secret : option string) (s s' : state) (r : outcome bool)
    (evs : list event) (ev : event) (x : exn) :
  connect_to_device host username password secret s = (s', r) ->
  trace s' = trace s ++ evs ->
  In ev evs ->
  ((exists p, ev = EvConnect p (Raise x)) \/
   (exists h, ev = EvEnable h (Raise x))) ->
  r = (if is_Exception x then Ret false else Raise x) /\
  exists before, evs = before ++ [ev].
Proof.
  intros H Ht Hin Hev. apply connect_to_device_cases in H
    as [(k & _ & -> & _)|(p & _ & Hcase)].
  - rewrite <- (app_nil_r (trace s)) in Ht at 1.
    apply app_inv_head in Ht. subst evs. destruct Hin.
  - destruct Hcase as [(x' & _ & Ht' & Hr)|(h & _ & _ & _ & Hcase)].
    + rewrite Ht in Ht'. apply app_inv_head in Ht'. subst evs.
      destruct Hin as [<-|[]].
      destruct Hev as [(p' & Hev)|(h' & Hev)]; [|discriminate].
      injection Hev as _ ->. split; [exact Hr|]. now exists [].
    + destruct Hcase as [(_ & Ht' & _)|(_ & o & Ht' & Hr)];
        rewrite Ht in Ht'; apply app_inv_head in Ht'; subst evs.
      * destruct Hin as [<-|[]].
        destruct Hev as [(p' & Hev)|(h' & Hev)]; discriminate.
      * destruct Hin as [<-|[<-|[]]].
        -- destruct Hev as [(p' & Hev)|(h' & Hev)]; discriminate.
        -- destruct Hev as [(p' & Hev)|(h' & Hev)]; [discriminate|].
           injection Hev as _ ->. split; [exact Hr|].
           now exists [EvConnect p (Ret h)].
Qed.

(** ** What [main] does around the sweep *)

Lemma main_handler_spec (e : exn) :
  main_handler e
  = if is_KeyboardInterrupt e || is_Exception e then Some (ret tt) else None.
Proof.
  unfold main_handler.
  now destruct (is_KeyboardInterrupt e), (is_Exception e).
Qed.

Lemma main_work_state (host username password secret : string) (s : state) :
  fst (try_except (main_body host username password secret) main_handler s)
  = fst (main_body host username password secret s).
Proof.
  unfold try_except.
  destruct (main_body host username password secret s) as [s1 [[]|e]];
    [reflexivity|].
  rewrite main_handler_spec.
  now destruct (is_KeyboardInterrupt e || is_Exception e).
Qed.



(** X15.  When [connect_to_device] does not return [True] (it returned
    [False], or raised), [main] runs no check and saves nothing: no command
    is sent and the file system is not touched. *)
Theorem main_without_session_does_no_work (cfg : ConfigModel)
    (host username password secret : string) (e0 : Env) :
  snd (connect_to_device host username password
         (if truthy_str (Some secret) then Some secret else None)
         {| self := init cfg; env := e0; trace := [] |}) <> Ret true ->
  sent (trace (fst (main_try host username password secret
                      {| self := init cfg; env := e0; trace := [] |}))) = [] /\
  forallb (fun ev => negb (is_file_event ev))
    (trace (fst (main_try host username password secret
                   {| self := init cfg; env := e0; trace := [] |}))) = true.
Proof.
  set (s0 := {| self := init cfg; env := e0; trace := [] |}).
  set (sec := if truthy_str (Some secret) then Some secret else None).
  intros Hno. unfold main_try. rewrite try_finally_state.
  assert (Hs1 : fst (try_except (main_body host username password secret)
                       main_handler s0)
                = fst (connect_to_device host username password sec s0)).
  { unfold try_except, main_body, bind. fold sec.
    destruct (connect_to_device host username password sec s0)
      as [s1 [[|]|e]]; simpl in *.
    - now contradiction Hno.
    - reflexivity.
    - rewrite main_handler_spec.
      now destruct (is_KeyboardInterrupt e || is_Exception e). }
  rewrite Hs1.
  destruct (connect_to_device host username password sec s0) as [s1 r] eqn:Hc.
  simpl in *.
  assert (Hlogin : sent (trace s1) = [] /\
                   forallb (fun ev => negb (is_file_event ev)) (trace s1) = true).
  { apply connect_to_device_cases in Hc
      as [(k & _ & -> & _)|(p & _ & [(x & _ & -> & _)|(h & _ & _ & _ & Hcase)])];
      [auto|auto|].
    destruct Hcase as [(_ & -> & _)|(_ & o & -> & _)]; auto. }
  destruct Hlogin as [Hsent Hfile].
  destruct (connection (self s1)) as [h|] eqn:Hconn.
  - destruct (disconnect_with_session s1 h Hconn) as (e' & r' & _ & ->).
    simpl. rewrite sent_app, forallb_app, Hsent, Hfile. auto.
  - rewrite (disconnect_without_session s1 Hconn). simpl.
    rewrite sent_app, forallb_app, Hsent, Hfile. auto.
Qed.

(** ** The kinds of call each method makes *)

Lemma adds_nothing {A} (P : event -> bool) (m : M A) :
  (forall s, trace (fst (m s)) = trace s) -> adds P m.
Proof.
  intros H s. exists []. now rewrite app_nil_r, H.
Qed.

Lemma adds_ret {A} (P : event -> bool) (a : A) : adds P (ret a).
Proof. now apply adds_nothing. Qed.

Lemma adds_raise {A} (P : event -> bool) (e : exn) : adds P (raise (A := A) e).
Proof. now apply adds_nothing. Qed.

Lemma adds_subscript {A} (P : event -> bool) (k : string) (o : option A) :
  adds P (subscript k o).
Proof. destruct o; [apply adds_ret|apply adds_raise]. Qed.

Lemma adds_now (P : event -> bool) : adds P now.
Proof.
  apply adds_nothing. intros s. unfold now.
  now destruct (datetime_now (env s)).
Qed.

Lemma adds_call {A} (P : event -> bool) (f : Env -> Env * outcome A)
    (ev : outcome A -> event) :
  (forall r, P (ev r) = true) -> adds P (call f ev).
Proof.
  intros Hev s. unfold call. destruct (f (env s)) as [e' r]. simpl.
  exists [ev r]. simpl. now rewrite Hev.
Qed.

Lemma adds_then {A} (P : event -> bool) (m : M A) (s : state) (s2 : state) :
  adds P m ->
  (exists evs, trace s2 = trace (fst (m s)) ++ evs /\ forallb P evs = true) ->
  exists evs, trace s2 = trace s ++ evs /\ forallb P evs = true.
Proof.
  intros Hm (evs2 & Ht2 & Hp2). destruct (Hm s) as (evs1 & Ht1 & Hp1).
  exists (evs1 ++ evs2).
  now rewrite Ht2, Ht1, app_assoc, forallb_app, Hp1, Hp2.
Qed.

(** What the continuation of a [bind] adds to what its first part did. *)
Lemma bind_adds {A B} (P : event -> bool) (m : M A) (k : A -> M B) (s : state) :
  (forall a, adds P (k a)) ->
  exists evs,
    trace (fst (bind m k s)) = trace (fst (m s)) ++ evs /\
    forallb P evs = true.
Proof.
  intros Hk. unfold bind. destruct (m s) as [s1 [a|e]]; simpl.
  - apply Hk.
  - exists []. now rewrite app_nil_r.
Qed.

Lemma adds_bind {A B} (P : event -> bool) (m : M A) (k : A -> M B) :
  adds P m -> (forall a, adds P (k a)) -> adds P (bind m k).
Proof.
  intros Hm Hk s. apply adds_then with (m := m); [exact Hm|].
  now apply bind_adds.
Qed.

Lemma adds_try_except {A} (P : event -> bool) (body : M A)
    (handler : exn -> option (M A)) :
  adds P body -> (forall e h, handler e = Some h -> adds P h) ->
  adds P (try_except body handler).
Proof.
  intros Hb Hh s. apply adds_then with (m := body); [exact Hb|].
  unfold try_except. destruct (body s) as [s1 [a|e]]; simpl.
  - exists []. now rewrite app_nil_r.
  - destruct (handler e) as [h|] eqn:E.
    + apply (Hh e h E).
    + exists []. now rewrite app_nil_r.
Qed.

Lemma adds_run_commands (conn : Handle) (cmds : list CommandSpec) :
  forall acc, adds is_send_event (run_commands conn cmds acc).
Proof.
  induction cmds as [|c cmds IH]; intros acc; simpl.
  - apply adds_ret.
  - apply adds_bind; [apply adds_subscript|intros cmd].
    apply adds_bind; [|intros acc'; apply IH].
    apply adds_try_except.
    + apply adds_bind; [now apply adds_call|intros out; apply adds_ret].
    + intros e h. destruct (is_Exception e); [|discriminate].
      intros H. injection H as <-. apply adds_ret.
Qed.

Lemma adds_execute_health_check (name : string) :
  adds is_send_event (execute_health_check name).
Proof.
  unfold execute_health_check.
  apply adds_bind; [now apply adds_nothing|intros m].
  destruct (connection m); [|apply adds_ret].
  apply adds_bind; [apply adds_subscript|intros hcs].
  destruct (skipped _); [apply adds_ret|].
  apply adds_bind; [apply adds_now|intros t].
  apply adds_bind; [apply adds_run_commands|intros rs; apply adds_ret].
Qed.

Lemma adds_run_checks (names : list string) :
  forall acc, adds is_send_event (run_checks names acc).
Proof.
  induction names as [|n names IH]; intros acc; simpl.
  - apply adds_ret.
  - apply adds_bind; [apply adds_execute_health_check|intros [r|]]; apply IH.
Qed.

Lemma adds_execute_all_health_checks :
  adds is_send_event execute_all_health_checks.
Proof.
  unfold execute_all_health_checks.
  apply adds_bind; [now apply adds_nothing|intros m].
  apply adds_bind; [apply adds_subscript|intros info].
  apply adds_bind; [apply adds_now|intros t].
  apply adds_bind; [apply adds_subscript|intros hcs].
  apply adds_bind; [apply adds_run_checks|intros cs].
  apply adds_bind; [now apply adds_nothing|intros _; apply adds_ret].
Qed.

Lemma adds_save_results (output_dir : option string) :
  adds is_file_event (save_results output_dir).
Proof.
  unfold save_results.
  apply adds_bind; [now apply adds_nothing|intros m].
  destruct (results m) as [doc|]; [|apply adds_ret].
  apply adds_bind; [now apply adds_call|intros _].
  apply adds_bind; [apply adds_now|intros t].
  apply adds_try_except.
  - apply adds_bind; [now apply adds_call|intros _; apply adds_ret].
  - intros e h. unfold save_handler. destruct (is_Exception e); [|discriminate].
    intros H. injection H as <-. apply adds_ret.
Qed.

(** X16.  Whatever its outcome, a sweep calls nothing but [send_command]:
    it never logs in, never touches the file system, never disconnects;
    and it leaves the configuration and the session reference of the
    monitor alone. *)
Theorem sweep_only_sends (s : state) :
  config (self (fst (execute_all_health_checks s))) = config (self s) /\
  connection (self (fst (execute_all_health_checks s))) = connection (self s) /\
  exists evs,
    trace (fst (execute_all_health_checks s)) = trace s ++ evs /\
    forallb is_send_event evs = true.
Proof.
  destruct (quiet_execute_all_health_checks s) as (Hc & Hn & _).
  split; [exact Hc|]. split; [exact Hn|].
  apply adds_execute_all_health_checks.
Qed.

(** X17.  Whatever its outcome, [save_results] calls nothing but the
    creation of the directory and the write of the file: it sends nothing
    to the session; and it leaves the configuration and the session
    reference of the monitor alone. *)
Theorem save_only_touches_files (output_dir : option string) (s : state) :
  config (self (fst (save_results output_dir s))) = config (self s) /\
  connection (self (fst (save_results output_dir s))) = connection (self s) /\
  exists evs,
    trace (fst (save_results output_dir s)) = trace s ++ evs /\
    forallb is_file_event evs = true.
Proof.
  destruct (quiet_save_results output_dir s) as (Hc & Hn & _).
  split; [exact Hc|]. split; [exact Hn|].
  apply adds_save_results.
Qed.

Lemma adds_connect_to_device (host username password : string)
    (secret : option string) :
  adds is_login_event (connect_to_device host username password secret).
Proof.
  unfold connect_to_device.
  apply adds_bind; [now apply adds_nothing|intros m].
  repeat (apply adds_bind; [apply adds_subscript|intros ?]).
  apply adds_try_except.
  - apply adds_bind; [now apply adds_call|intros h].
    apply adds_bind; [now apply adds_nothing|intros _].
    apply adds_bind; [|intros _; apply adds_ret].
    destruct (truthy_str secret); [now apply adds_call|apply adds_ret].
  - intros e h. rewrite connect_handler_spec.
    destruct (is_Exception e); [|discriminate].
    intros H. injection H as <-. apply adds_ret.
Qed.

(** X18.  The calls of a run of [main] come in phases, in this order and
    never interleaved: the login (connect, enable), then the commands of
    the sweep, then the file system (directory, result file), then
    [disconnect] with the teardown if a session is referenced.  A phase is
    empty when the run did not get that far. *)
Theorem main_runs_in_phases (host username password secret : string)
    (s : state) :
  exists login sends files cleanup,
    trace (fst (main_try host username password secret s))
    = trace s ++ login ++ sends ++ files ++ EvDisconnectCall :: cleanup /\
    forallb is_login_event login = true /\
    forallb is_send_event sends = true /\
    forallb is_file_event files = true /\
    (cleanup = [] \/ exists h r, cleanup = [EvTeardown h r]).
Proof.
  unfold main_try. rewrite try_finally_state, main_work_state.
  set (sec := if truthy_str (Some secret) then Some secret else None).
  destruct (adds_connect_to_device host username password sec s)
    as (login & Hlogin & Hl).
  assert (Hwork : exists sends files,
             trace (fst (main_body host username password secret s))
             = trace s ++ login ++ sends ++ files /\
             forallb is_send_event sends = true /\
             forallb is_file_event files = true).
  { unfold main_body. fold sec. unfold bind at 1.
    destruct (connect_to_device host username password sec s)
      as [s1 [[|]|e]]; simpl in Hlogin |- *.
    - destruct (adds_execute_all_health_checks s1) as (sends & Hsends & Hs).
      destruct (bind_adds is_file_event execute_all_health_checks
                  (fun _ => bind (save_results None)
                              (fun _ => bind analyze_thresholds
                                          (fun _ => ret tt))) s1)
        as (files & Hfiles & Hf).
      { intros _. apply adds_bind; [apply adds_save_results|intros _].
        apply adds_bind; [now apply adds_nothing|intros _; apply adds_ret]. }
      exists sends, files. rewrite Hfiles, Hsends, Hlogin, <- !app_assoc. auto.
    - exists [], []. rewrite Hlogin, !app_nil_r. auto.
    - exists [], []. rewrite Hlogin, !app_nil_r. auto. }
  destruct Hwork as (sends & files & Hwork & Hs & Hf).
  set (s2 := fst (main_body host username password secret s)) in *.
  exists login, sends, files.
  destruct (connection (self s2)) as [h|] eqn:Hc.
  - destruct (disconnect_with_session s2 h Hc) as (e' & r & _ & ->).
    exists [EvTeardown h r]. simpl. rewrite Hwork, <- !app_assoc. simpl.
    repeat split; eauto.
  - rewrite (disconnect_without_session s2 Hc). exists []. simpl.
    rewrite Hwork, <- !app_assoc. simpl. auto 6.
Qed.

End Facts.

(** * Properties of the start-up *)

Section StartupFacts.

Context {W : World} {P : Startup}.

Lemma load_config_reraises (config_file : string) (e : Env) :
  _load_config config_file e = read_yaml config_file e.
Proof.
  unfold _load_config, load_handler, io_raise.
  destruct (read_yaml config_file e) as [e' [cfg|x]]; [reflexivity|].
  destruct (is_FileNotFoundError x), (is_YAMLError x); reflexivity.
Qed.

Lemma getenv_or_input_set (var prompt value : string) (e : Env) :
  getenv var e = Some value -> value <> "" ->
  getenv_or_input var prompt e = (e, Ret value).
Proof.
  intros Hv Hne. unfold getenv_or_input. rewrite Hv.
  destruct value; [contradiction|reflexivity].
Qed.

Lemma getenv_or_input_unset (var prompt : string) (e : Env) :
  getenv var e = None \/ getenv var e = Some "" ->
  getenv_or_input var prompt e = input prompt e.
Proof.
  intros [Hv|Hv]; unfold getenv_or_input; now rewrite Hv.
Qed.

(** X19.  Building the monitor succeeds exactly when the configuration
    file can be read and parsed: the monitor then holds the parsed
    document, no results and no session.  Otherwise the exception of the
    read, whatever its class, leaves the constructor unchanged: the two
    [except] clauses log and re-raise, nothing is substituted for the
    configuration. *)
Theorem monitor_needs_its_configuration (config_file : string) (e : Env) :
  (forall e' cfg,
      read_yaml config_file e = (e', Ret cfg) ->
      CiscoHealthMonitor config_file e
      = (e', Ret {| config := cfg; results := None; connection := None |})) /\
  (forall e' x,
      read_yaml config_file e = (e', Raise x) ->
      CiscoHealthMonitor config_file e = (e', Raise x)) /\
  (forall e' m,
      CiscoHealthMonitor config_file e = (e', Ret m) ->
      read_yaml config_file e = (e', Ret (config m)) /\
      results m = None /\ connection m = None).
Proof.
  unfold CiscoHealthMonitor. rewrite load_config_reraises.
  repeat split.
  - intros e' cfg ->. reflexivity.
  - intros e' x ->. reflexivity.
  - destruct (read_yaml config_file e) as [e1 [cfg|x]]; [|discriminate].
    injection H as <- <-. reflexivity.
  - destruct (read_yaml config_file e) as [e1 [cfg|x]]; [|discriminate].
    injection H as <- <-. reflexivity.
  - destruct (read_yaml config_file e) as [e1 [cfg|x]]; [|discriminate].
    injection H as <- <-. reflexivity.
Qed.

(** X20.  With the four variables set and non-empty, [main] prompts for
    nothing; and when the configuration file cannot be read or parsed,
    [main] raises that exception before its [try] block: no call is made
    on any session, and [disconnect] is not called. *)
Theorem unreadable_configuration_ends_main
    (host username password secret : string) (e0 e1 : Env) (x : exn) :
  getenv "SWITCH_HOST" e0 = Some host -> host <> "" ->
  getenv "SWITCH_USER" e0 = Some username -> username <> "" ->
  getenv "SWITCH_PASS" e0 = Some password -> password <> "" ->
  getenv "SWITCH_SECRET" e0 = Some secret -> secret <> "" ->
  read_yaml "cisco_9300_health_check.yaml" e0 = (e1, Raise x) ->
  main e0 = (e1, [], Raise x).
Proof.
  intros Hh Hh' Hu Hu' Hp Hp' Hs Hs' Hr. unfold main, before_try.
  rewrite (getenv_or_input_set _ _ _ _ Hh Hh').
  rewrite (getenv_or_input_set _ _ _ _ Hu Hu').
  rewrite (getenv_or_input_set _ _ _ _ Hp Hp').
  rewrite (getenv_or_input_set _ _ _ _ Hs Hs').
  unfold CiscoHealthMonitor. now rewrite load_config_reraises, Hr.
Qed.

(** X21.  With the four variables set and non-empty and a configuration
    file that loads, [main] prompts for nothing and is the [try] block run
    on a fresh monitor, with the credentials of the environment. *)
Theorem main_with_environment_set
    (host username password secret : string) (e0 e1 : Env)
    (cfg : ConfigModel) :
  getenv "SWITCH_HOST" e0 = Some host -> host <> "" ->
  getenv "SWITCH_USER" e0 = Some username -> username <> "" ->
  getenv "SWITCH_PASS" e0 = Some password -> password <> "" ->
  getenv "SWITCH_SECRET" e0 = Some secret -> secret <> "" ->
  read_yaml "cisco_9300_health_check.yaml" e0 = (e1, Ret cfg) ->
  main e0
  = (env (fst (main_try host username password secret
                 {| self := init cfg; env := e1; trace := [] |})),
     trace (fst (main_try host username password secret
                   {| self := init cfg; env := e1; trace := [] |})),
     snd (main_try host username password secret
            {| self := init cfg; env := e1; trace := [] |})).
Proof.
  intros Hh Hh' Hu Hu' Hp Hp' Hs Hs' Hr. unfold main, before_try.
  rewrite (getenv_or_input_set _ _ _ _ Hh Hh').
  rewrite (getenv_or_input_set _ _ _ _ Hu Hu').
  rewrite (getenv_or_input_set _ _ _ _ Hp Hp').
  rewrite (getenv_or_input_set _ _ _ _ Hs Hs').
  unfold CiscoHealthMonitor. rewrite load_config_reraises, Hr.
  unfold init.
  now destruct (main_try host username password secret _).
Qed.

(** X22.  A variable that is unset, or set to the empty string, sends
    [main] to the prompt; and an exception raised at the prompt, a
    keyboard interrupt included, escapes [main]: the prompts are outside
    the [try] block, so neither [except] clause applies, and nothing has
    been called on a session. *)
Theorem interrupted_prompt_escapes_main (e0 e1 : Env) (x : exn) :
  getenv "SWITCH_HOST" e0 = None \/ getenv "SWITCH_HOST" e0 = Some "" ->
  input "Switch IP/Hostname: " e0 = (e1, Raise x) ->
  main e0 = (e1, [], Raise x).
Proof.
  intros Hv Hi. unfold main, before_try.
  now rewrite (getenv_or_input_unset _ _ _ Hv), Hi.
Qed.

End StartupFacts.

(** * The scripted device as an instance *)

Lemma demo_sends_uninterrupted : sends_uninterrupted (W := Demo.world).
Proof.
  intros conn cmd use_textfsm e. simpl. unfold Demo.send.
  destruct (String.eqb cmd "show bad"); reflexivity.
Qed.


Lemma check_result_mirrors_commands_witness :
  (forall s' o,
      execute_health_check "cpu" Demo.connected = (s', Ret o) ->
      exists r,
        o = Some r /\
        length (cr_commands r) = 3 /\
        map cr_command (cr_commands r)
        = ["show processes cpu"; "show bad"; "show version"] /\
        map cr_description (cr_commands r) = ["demo"; "demo"; "demo"]) /\
  (exists s' r, execute_health_check "cpu" Demo.connected = (s', Ret (Some r))).
Proof.
  pose proof (check_result_mirrors_commands Demo.connected 7 Demo.checks_cfg
                "cpu" eq_refl eq_refl eq_refl) as [Hshape Hret].
  split; [exact Hshape|exact (Hret demo_sends_uninterrupted eq_refl)].
Defined.

Lemma command_results_are_consistent_witness :
  exists s' rr,
    execute_all_health_checks Demo.connected = (s', Ret rr) /\
    forall name r c,
      In (name, r) (checks rr) -> In c (cr_commands r) ->
      (cr_status c = "success" /\ cr_output c <> None /\ cr_error c = None) \/
      (cr_status c = "failed" /\ cr_output c = None /\ cr_error c <> None).
Proof.
  destruct (execute_all_health_checks Demo.connected) as [s' [rr|e]] eqn:E.
  - exists s', rr. split; [reflexivity|].
    intros name r c Hr Hc.
    exact (proj2 (command_results_are_consistent Demo.connected s')
             rr name r c E Hr Hc).
  - vm_compute in E. discriminate.
Defined.

Lemma disabled_checks_are_omitted_witness :
  exists s' rr,
    execute_all_health_checks Demo.connected = (s', Ret rr) /\
    dict_get "memory" (checks rr) = None /\
    dict_get "undefined" (checks rr) = None.
Proof.
  destruct (execute_all_health_checks Demo.connected) as [s' [rr|e]] eqn:E.
  - exists s', rr. split; [reflexivity|]. split.
    + apply (disabled_checks_are_omitted Demo.connected s' rr Demo.checks_cfg
               "memory" eq_refl); [|exact E].
      right. exists Demo.memory. split; reflexivity.
    + apply (disabled_checks_are_omitted Demo.connected s' rr Demo.checks_cfg
               "undefined" eq_refl); [|exact E].
      left. reflexivity.
  - vm_compute in E. discriminate.
Defined.

(** The claim C5 at the monitor that holds session 7: the second
    [disconnect] tears the session down again. *)
Lemma second_disconnect_tears_down_again :
  ~ second_disconnect_is_noop Demo.connected.
Proof.
  unfold second_disconnect_is_noop. vm_compute. discriminate.
Qed.

Lemma disconnect_tears_down_on_every_call_witness :
  torn_down (trace (fst (disconnect (fst (disconnect Demo.connected)))))
  = [7; 7].
Proof.
  destruct (proj1 (disconnect_tears_down_on_every_call Demo.connected) 7 eq_refl)
    as (s1 & r1 & s2 & r2 & H1 & H2 & _ & _ & _ & _ & Ht).
  rewrite H1. simpl. rewrite H2. simpl. exact Ht.
Defined.

Lemma save_failure_keeps_results_witness :
  snd (save_results None Demo.swept) = Ret None /\
  self (fst (save_results None Demo.swept)) = self Demo.swept.
Proof.
  pose proof (save_failure_keeps_results Demo.swept
                (fst (save_results None Demo.swept)) None
                (snd (save_results None Demo.swept)) [_; _] _ _ _
                eq_refl eq_refl (or_intror (or_introl eq_refl)) eq_refl)
    as (Hr & Hs & _).
  split; assumption.
Defined.



Lemma empty_check_is_reported_witness :
  exists s' rr r,
    execute_all_health_checks Demo.connected = (s', Ret rr) /\
    dict_get "bare" (checks rr) = Some r /\
    check_name r = "bare" /\ cr_commands r = [].
Proof.
  destruct (empty_check_is_reported Demo.connected 7 Demo.checks_cfg
              (YMap (YCons "model" (YScalar "C9300") YNil)) "bare" Demo.bare
              eq_refl eq_refl eq_refl eq_refl eq_refl (or_introl eq_refl))
    as (_ & Hin & _).
  destruct (execute_all_health_checks Demo.connected) as [s' [rr|e]] eqn:E.
  - destruct (Hin s' rr eq_refl) as (r & Hr & Hn & Hc).
    exists s', rr, r. auto.
  - vm_compute in E. discriminate.
Defined.

(** Two runs of [main] on the scripted device: the host that times out
    leaves no session and nothing to tear down; the reachable one is torn
    down once, even though its results cannot be written. *)
Example main_on_unreachable_host :
  let s := fst (main_try (W := Demo.world) "unreachable" "admin" "pw" ""
                  Demo.offline) in
  created (trace s) = [] /\ torn_down (trace s) = [] /\
  disconnect_calls (trace s) = 1 /\ sent (trace s) = [].
Proof. vm_compute. auto. Qed.

Example main_on_read_only_output :
  let s := fst (main_try (W := Demo.world) "10.0.0.1" "admin" "pw" "enable"
                  (Build_state (W := Demo.world)
                     (init (W := Demo.world) (Demo.cfg "/readonly")) 0 [])) in
  created (trace s) = [7] /\ torn_down (trace s) = [7] /\
  disconnect_calls (trace s) = 1 /\
  sent (trace s)
  = ["show processes cpu"; "show bad"; "show version"; "show env all"].
Proof. vm_compute. auto. Qed.

(** * The further properties on the scripted devices *)

Lemma demo_names_distinct : NoDup (dict_keys Demo.checks_cfg).
Proof.
  repeat constructor; simpl; intuition discriminate.
Qed.

Lemma results_record_the_sends_witness :
  exists r res,
    snd (execute_health_check "cpu" Demo.connected) = Ret (Some r) /\
    length (cr_commands r) = 3 /\
    nth_error (cr_commands r) 1 = Some res /\
    cr_command res = "show bad" /\
    cr_status res = "failed" /\
    cr_error res = Some "Invalid input detected" /\
    cr_output res = None.
Proof.
  destruct (execute_health_check "cpu" Demo.connected) as [s' [[r|]|e]] eqn:E;
    try (vm_compute in E; discriminate).
  destruct (results_record_the_sends "cpu" Demo.connected s' r (trace s')
              E eq_refl) as [Hlen Hrec].
  destruct (Hrec 1 7 "show bad" false
              (Raise (Exc OtherException "Invalid input detected")))
    as (res & Hn & Hc & Hst & Herr & Hout).
  { vm_compute in E. injection E as <- _. reflexivity. }
  exists r, res. split; [reflexivity|]. split; [|auto 8].
  rewrite Hlen. vm_compute in E. injection E as <- _. reflexivity.
Defined.

(** The interrupt at ["show bad"]: the check raises it, and
    ["show version"] is never sent. *)
Lemma interrupt_stops_the_check_witness :
  snd (execute_health_check "cpu" Faulty.connected)
  = Raise (Exc KeyboardInterrupt "") /\
  self (fst (execute_health_check "cpu" Faulty.connected))
  = self Faulty.connected /\
  sent (trace (fst (execute_health_check "cpu" Faulty.connected)))
  = ["show processes cpu"; "show bad"].
Proof.
  destruct (interrupt_stops_the_check "cpu" Faulty.connected
              (fst (execute_health_check "cpu" Faulty.connected))
              (snd (execute_health_check "cpu" Faulty.connected))
              (trace (fst (execute_health_check "cpu" Faulty.connected)))
              7 "show bad" false (Exc KeyboardInterrupt "")
              eq_refl eq_refl (or_intror (or_introl eq_refl)) eq_refl)
    as (Hr & Hs & _).
  split; [exact Hr|]. split; [exact Hs|reflexivity].
Defined.

Lemma missing_command_key_raises_witness :
  exists s',
    execute_health_check "broken" Faulty.misconfigured
    = (s', Raise (key_error "command")) /\
    self s' = self Faulty.misconfigured /\
    sent (trace s') = ["show clock"].
Proof.
  exact (missing_command_key_raises "broken" Faulty.misconfigured 7
           [("broken", Some Faulty.broken)]
           [Demo.spec "show clock"] [Demo.spec "show version"] Faulty.nameless
           demo_sends_uninterrupted
           eq_refl eq_refl eq_refl eq_refl eq_refl eq_refl).
Defined.

Lemma failed_sweep_keeps_monitor_witness :
  snd (execute_all_health_checks Faulty.connected)
  = Raise (Exc KeyboardInterrupt "") /\
  self (fst (execute_all_health_checks Faulty.connected))
  = self Faulty.connected.
Proof.
  split; [reflexivity|].
  exact (failed_sweep_keeps_monitor Faulty.connected
           (fst (execute_all_health_checks Faulty.connected))
           (Exc KeyboardInterrupt "") eq_refl).
Defined.

Lemma checks_are_the_enabled_names_witness :
  exists s' rr,
    execute_all_health_checks Demo.connected = (s', Ret rr) /\
    dict_keys (checks rr) = ["cpu"; "bare"; "environment"].
Proof.
  destruct (execute_all_health_checks Demo.connected) as [s' [rr|e]] eqn:E.
  - exists s', rr. split; [reflexivity|].
    exact (checks_are_the_enabled_names Demo.connected s' rr 7
             Demo.checks_cfg eq_refl eq_refl demo_names_distinct E).
  - vm_compute in E. discriminate.
Defined.

Lemma check_results_sit_under_their_name_witness :
  exists s' rr,
    execute_all_health_checks Demo.connected = (s', Ret rr) /\
    forall n r, In (n, r) (checks rr) -> check_name r = n.
Proof.
  destruct (execute_all_health_checks Demo.connected) as [s' [rr|e]] eqn:E.
  - exists s', rr. split; [reflexivity|]. intros n r Hin.
    exact (check_results_sit_under_their_name Demo.connected s' rr n r E Hin).
  - vm_compute in E. discriminate.
Defined.

Lemma saved_path_means_written_witness :
  exists s' p doc stamp,
    save_results (Some "./out") Demo.swept = (s', Ret (Some p)) /\
    results (self Demo.swept) = Some doc /\
    p = @path_join Demo.world "./out"
          ("cisco9300_health_" ++ stamp ++ ".json")%string /\
    trace s'
    = trace Demo.swept ++ [EvMkdir "./out" (Ret tt); EvWrite p doc (Ret tt)].
Proof.
  destruct (save_results (Some "./out") Demo.swept) as [s' [[p|]|e]] eqn:E.
  - destruct (saved_path_means_written (Some "./out") Demo.swept s' p E)
      as (doc & dir & stamp & Hres & _ & Hp & Ht & Hdir & _).
    rewrite (Hdir "./out" eq_refl) in Hp, Ht.
    exists s', p, doc, stamp. auto.
  - vm_compute in E. discriminate.
  - vm_compute in E. discriminate.
Defined.

Lemma none_means_nothing_saved_witness :
  (results (self Demo.swept) = None /\
   fst (save_results None Demo.swept) = Demo.swept) \/
  (exists dir p doc x,
      results (self Demo.swept) = Some doc /\ is_Exception x = true /\
      trace (fst (save_results None Demo.swept))
      = trace Demo.swept ++ [EvMkdir dir (Ret tt); EvWrite p doc (Raise x)]).
Proof.
  exact (none_means_nothing_saved None Demo.swept
           (fst (save_results None Demo.swept)) eq_refl).
Defined.

Lemma mkdir_failure_escapes_witness :
  snd (save_results None Faulty.swept) = Raise (Exc OSError "Permission denied") /\
  self (fst (save_results None Faulty.swept)) = self Faulty.swept.
Proof.
  pose proof (mkdir_failure_escapes None Faulty.swept
                (fst (save_results None Faulty.swept))
                (snd (save_results None Faulty.swept))
                [EvMkdir "/forbidden" (Raise (Exc OSError "Permission denied"))]
                "/forbidden" (Exc OSError "Permission denied")
                eq_refl eq_refl (or_introl eq_refl)) as (Hr & _ & Hs).
  split; assumption.
Defined.

Lemma sweep_then_save_writes_the_sweep_witness :
  exists s1 rr s2 p dir,
    execute_all_health_checks Demo.connected = (s1, Ret rr) /\
    save_results None s1 = (s2, Ret (Some p)) /\
    trace s2 = trace s1 ++ [EvMkdir dir (Ret tt); EvWrite p rr (Ret tt)].
Proof.
  destruct (execute_all_health_checks Demo.connected) as [s1 [rr|e]] eqn:E1.
  2:{ vm_compute in E1. discriminate. }
  destruct (save_results None s1) as [s2 [[p|]|e]] eqn:E2.
  - destruct (sweep_then_save_writes_the_sweep None Demo.connected s1 s2 rr p
                E1 E2) as (dir & Ht & _).
    exists s1, rr, s2, p, dir. auto.
  - exfalso. vm_compute in E1. injection E1 as <- <-.
    vm_compute in E2. discriminate.
  - exfalso. vm_compute in E1. injection E1 as <- <-.
    vm_compute in E2. discriminate.
Defined.

Lemma connect_true_means_session_witness :
  exists p h,
    dp_host p = "10.0.0.1" /\ dp_username p = "admin" /\
    dp_password p = "pw" /\ dp_secret p = Some "enable" /\
    connection
      (self (fst (connect_to_device "10.0.0.1" "admin" "pw" (Some "enable")
                    Demo.offline))) = Some h /\
    trace (fst (connect_to_device "10.0.0.1" "admin" "pw" (Some "enable")
                  Demo.offline))
    = [EvConnect p (Ret h); EvEnable h (Ret tt)].
Proof.
  exact (connect_true_means_session "10.0.0.1" "admin" "pw" (Some "enable")
           Demo.offline
           (fst (connect_to_device "10.0.0.1" "admin" "pw" (Some "enable")
                   Demo.offline))
           eq_refl).
Defined.

(** [enable] is refused: the method reports failure, and the monitor keeps
    the session. *)
Lemma connect_false_means_refused_witness :
  exists p x,
    is_Exception x = true /\
    ((self (fst (connect_to_device "10.0.0.1" "admin" "pw" (Some "enable")
                   Faulty.offline)) = self Faulty.offline /\
      trace (fst (connect_to_device "10.0.0.1" "admin" "pw" (Some "enable")
                    Faulty.offline))
      = trace Faulty.offline ++ [EvConnect p (Raise x)]) \/
     (exists h,
         connection
           (self (fst (connect_to_device "10.0.0.1" "admin" "pw"
                         (Some "enable") Faulty.offline))) = Some h /\
         trace (fst (connect_to_device "10.0.0.1" "admin" "pw" (Some "enable")
                       Faulty.offline))
         = trace Faulty.offline ++ [EvConnect p (Ret h); EvEnable h (Raise x)])).
Proof.
  exact (connect_false_means_refused "10.0.0.1" "admin" "pw" (Some "enable")
           Faulty.offline
           (fst (connect_to_device "10.0.0.1" "admin" "pw" (Some "enable")
                   Faulty.offline))
           eq_refl).
Defined.

(** The refused [enable] is an [Exception]: the method returns [False]. *)
Lemma connect_absorbs_session_errors_witness :
  snd (connect_to_device "10.0.0.1" "admin" "pw" (Some "enable") Faulty.offline)
  = Ret false.
Proof.
  destruct (connect_absorbs_session_errors (W := Faulty.world)
              "10.0.0.1" "admin" "pw" (Some "enable") Faulty.offline
              (fst (connect_to_device "10.0.0.1" "admin" "pw" (Some "enable")
                      Faulty.offline))
              (snd (connect_to_device "10.0.0.1" "admin" "pw" (Some "enable")
                      Faulty.offline))
              (trace (fst (connect_to_device "10.0.0.1" "admin" "pw"
                             (Some "enable") Faulty.offline)))
              (@EvEnable Faulty.world 7
                 (Raise (Exc OtherException "Failed to enter enable mode")))
              (Exc OtherException "Failed to enter enable mode")
              eq_refl eq_refl (or_intror (or_introl eq_refl))
              (or_intror (ex_intro _ (7 : @Handle Faulty.world) eq_refl)))
    as [Hr _].
  exact Hr.
Defined.

Lemma main_without_session_does_no_work_witness :
  sent (trace (fst (main_try "unreachable" "admin" "pw" "" Demo.offline))) = [] /\
  forallb (fun ev => negb (is_file_event ev))
    (trace (fst (main_try "unreachable" "admin" "pw" "" Demo.offline))) = true.
Proof.
  apply (main_without_session_does_no_work (W := Demo.world)
           (Demo.cfg "./output") "unreachable" "admin" "pw" "" 0).
  vm_compute. discriminate.
Defined.

Lemma monitor_needs_its_configuration_witness :
  CiscoHealthMonitor (P := Console.startup [] [] Console.missing_file)
    "cisco_9300_health_check.yaml" 0
  = (1, Raise (Exc OSError "No such file or directory")).
Proof.
  exact (proj1 (proj2 (monitor_needs_its_configuration
                         (P := Console.startup [] [] Console.missing_file)
                         "cisco_9300_health_check.yaml" 0))
           1 (Exc OSError "No such file or directory") eq_refl).
Defined.

Lemma unreadable_configuration_ends_main_witness :
  main (P := Console.startup Console.all_set [] Console.missing_file) 0
  = (1, [], Raise (Exc OSError "No such file or directory")).
Proof.
  apply (unreadable_configuration_ends_main
           (P := Console.startup Console.all_set [] Console.missing_file)
           "10.0.0.1" "admin" "pw" "enable" 0 1);
    solve [reflexivity | discriminate].
Defined.

Lemma main_with_environment_set_witness :
  main (P := Console.startup Console.all_set []
               (Ret (Demo.cfg "./output"))) 0
  = (env (fst (main_try "10.0.0.1" "admin" "pw" "enable"
                 (Build_state (W := Demo.world)
                    (init (W := Demo.world) (Demo.cfg "./output")) 1 []))),
     trace (fst (main_try "10.0.0.1" "admin" "pw" "enable"
                   (Build_state (W := Demo.world)
                      (init (W := Demo.world) (Demo.cfg "./output")) 1 []))),
     snd (main_try "10.0.0.1" "admin" "pw" "enable"
            (Build_state (W := Demo.world)
               (init (W := Demo.world) (Demo.cfg "./output")) 1 []))).
Proof.
  apply (main_with_environment_set
           (P := Console.startup Console.all_set []
                   (Ret (Demo.cfg "./output")))
           "10.0.0.1" "admin" "pw" "enable" 0 1 (Demo.cfg "./output"));
    solve [reflexivity | discriminate].
Defined.

Lemma interrupted_prompt_escapes_main_witness :
  main (P := Console.startup Console.empty_host Console.interrupting
               (Ret (Demo.cfg "./output"))) 0
  = (0, [], Raise (Exc KeyboardInterrupt "")).
Proof.
  apply (interrupted_prompt_escapes_main
           (P := Console.startup Console.empty_host Console.interrupting
                   (Ret (Demo.cfg "./output"))) 0 0).
  - right. reflexivity.
  - reflexivity.
Defined.
